(** * Slice labels and slice tasks: a model of [snorkel/slicing/utils.py]

    The development embeds the three functions of the module,
    [add_slice_labels], [convert_to_slice_tasks] and [_add_base_slice],
    over an explicit Python heap: module objects, module pools, lists of
    slice names and label dictionaries are heap objects addressed by
    references, so that aliasing and in-place mutation are visible in the
    statements. *)

From Stdlib Require Import ZArith Lia Ascii.
From stdpp Require Import gmap strings list fin_maps.

Local Open Scope Z_scope.
Local Open Scope string_scope.
Local Open Scope list_scope.

(** ** Python values and the heap *)

(** References to heap objects. *)
Abbreviation loc := nat.

(** The exceptions the module can raise.  [InvalidRef] is not a Python
    exception: it marks a dangling reference, which a Python program cannot
    build, and every theorem excludes it by assuming the references valid. *)
Inductive exn :=
| AssertionError
| KeyError
| IndexError
| AttributeError
| RuntimeError
| InvalidRef.

(** [torch.nn] modules, as far as the code looks into them: [nn.Linear]
    with its two dimensions, [nn.DataParallel] with its [module] attribute,
    the slice combiner, and any other module, which has neither
    [in_features] nor [out_features]. *)
Inductive module :=
| Linear (in_features out_features : nat)
| DataParallel (inner : loc)
| SliceCombinerModule
| OtherModule (tag : nat).

(** A one-dimensional [torch.LongTensor]. *)
Abbreviation tensor := (list Z).

(** A two-dimensional integer array: its shape and its items.  Items outside
    the shape are never read. *)
Record ndarray := mkArray {
  num_points : nat;
  num_slices : nat;
  item : nat → nat → Z;
}.

(** The column [a[:, i]]. *)
Definition column (a : ndarray) (i : nat) : tensor :=
  (λ e, item a e i) <$> seq 0 (num_points a).

(** [np.hstack([a, np.ones((num_points, 1), dtype=int)])]. *)
Definition hstack_ones (a : ndarray) : ndarray :=
  {| num_points := num_points a;
     num_slices := S (num_slices a);
     item := λ e j, if (j <? num_slices a)%nat then item a e j else 1 |}.

(** Modelled from the spec: the scorer configuration is an opaque value that
    is passed through; only its list of metric names is kept. *)
Record Scorer := mkScorer { metrics : list string }.

(** An input reference of an operation: an external input key or the
    output of an earlier operation. *)
Inductive input_ref :=
| InputKey (key : string)
| OpOutput (op : string) (index : Z).

(** Modelled from the spec: an operation is a named node with the name of
    its module and its ordered input references (class [Operation] of
    [snorkel.classification.snorkel_classifier]). *)
Record Operation := mkOperation {
  op_name : string;
  module_name : string;
  inputs : list input_ref;
}.

(** Modelled from the spec: a task is a name, a module pool held by
    reference, a task flow and a scorer (class [Task] of
    [snorkel.classification.snorkel_classifier]). *)
Record Task := mkTask {
  name : string;
  module_pool : loc;
  task_flow : list Operation;
  scorer : Scorer;
}.

(** The heap: module objects, module pools (dictionaries from module names
    to module references), Python lists of strings, and the label
    dictionaries [Y_dict] of the data loaders. *)
Record heap := mkHeap {
  module_objs : list module;
  pool_objs : list (gmap string loc);
  list_objs : list (list string);
  Y_dicts : list (gmap string tensor);
}.

(** ** A state and exception monad *)

Inductive result (A : Type) :=
| Ok (a : A)
| Raise (e : exn).
Arguments Ok {A} a.
Arguments Raise {A} e.

Definition M (A : Type) : Type := heap → result A * heap.

Definition raise {A} (e : exn) : M A := λ h, (Raise e, h).

Global Instance M_ret : MRet M := λ A (a : A) h, (Ok a, h).

Global Instance M_bind : MBind M := λ A B (k : A → M B) (m : M A) h,
  match m h with
  | (Ok a, h') => k a h'
  | (Raise e, h') => (Raise e, h')
  end.

(** Lift an optional value, raising [e] when it is absent. *)
Definition expect {A} (e : exn) (o : option A) : M A :=
  match o with
  | Some a => mret a
  | None => raise e
  end.

(** [assert b]. *)
Definition assert (b : bool) : M unit :=
  if b then mret tt else raise AssertionError.

(** [for x in l: body x]. *)
Fixpoint for_each {A} (l : list A) (body : A → M unit) : M unit :=
  match l with
  | [] => mret tt
  | x :: l' => body x ;; for_each l' body
  end.

(** A [for] loop that updates local variables, gathered in [s]. *)
Fixpoint for_fold {A S} (l : list A) (body : S → A → M S) (s : S) : M S :=
  match l with
  | [] => mret s
  | x :: l' => s' ← body s x ; for_fold l' body s'
  end.

(** [enumerate(l)]. *)
Definition enumerate {A} (l : list A) : list (nat * A) :=
  zip (seq 0 (length l)) l.

(** ** Heap operations *)

(** Reading a list object. *)
Definition read_list (r : loc) : M (list string) :=
  λ h, expect InvalidRef (list_objs h !! r) h.

(** A new list object. *)
Definition new_list (l : list string) : M loc :=
  λ h, (Ok (length (list_objs h)),
        {| module_objs := module_objs h; pool_objs := pool_objs h;
           list_objs := list_objs h ++ [l]; Y_dicts := Y_dicts h |}).

(** Reading a module object. *)
Definition read_module (r : loc) : M module :=
  λ h, expect InvalidRef (module_objs h !! r) h.

(** A new module object. *)
Definition new_module (m : module) : M loc :=
  λ h, (Ok (length (module_objs h)),
        {| module_objs := module_objs h ++ [m]; pool_objs := pool_objs h;
           list_objs := list_objs h; Y_dicts := Y_dicts h |}).

(** Reading a module pool. *)
Definition read_pool (r : loc) : M (gmap string loc) :=
  λ h, expect InvalidRef (pool_objs h !! r) h.

(** Replacing the contents of a module pool, in place. *)
Definition write_pool (r : loc) (p : gmap string loc) : M unit :=
  λ h, (Ok tt,
        {| module_objs := module_objs h; pool_objs := <[r := p]> (pool_objs h);
           list_objs := list_objs h; Y_dicts := Y_dicts h |}).

(** [nn.ModuleDict()]: a new pool object that holds no module. *)
Definition new_empty_pool : M loc :=
  λ h, (Ok (length (pool_objs h)),
        {| module_objs := module_objs h; pool_objs := pool_objs h ++ [∅];
           list_objs := list_objs h; Y_dicts := Y_dicts h |}).

(** [pool[key]]. *)
Definition pool_getitem (r : loc) (key : string) : M loc :=
  p ← read_pool r ; expect KeyError (p !! key).

(** ['.' in name]. *)
Fixpoint has_dot (name : string) : bool :=
  match name with
  | EmptyString => false
  | String c name' => Ascii.eqb c "."%char || has_dot name'
  end.

(** The checks of [nn.Module.add_module] on the name of a module, which
    every insertion into a [nn.ModuleDict] goes through: a name with a "."
    and the empty name raise [KeyError].  Its remaining check, a name that
    is already an attribute of the pool object, cannot fire on the names
    built by [convert_to_slice_tasks]: each of them contains ":" or ends in
    "_master_combiner" or "_master_head", and no attribute of a
    [nn.ModuleDict] does. *)
Definition add_module_check (name : string) : M unit :=
  if has_dot name then raise KeyError
  else if bool_decide (name = "") then raise KeyError
  else mret tt.

(** [pool[key] = m]. *)
Definition pool_setitem (r : loc) (key : string) (m : loc) : M unit :=
  p ← read_pool r ;
  add_module_check key ;;
  write_pool r (<[key := m]> p).

(** [nn.ModuleDict(modules)]: a new empty pool, then [update(modules)],
    which inserts the items one by one, in their order. *)
Definition ModuleDict (modules : list (string * loc)) : M loc :=
  r ← new_empty_pool ;
  for_each modules (λ key_module,
    pool_setitem r key_module.1 key_module.2) ;;
  mret r.

(** [del pool[key]]. *)
Definition pool_delitem (r : loc) (key : string) : M unit :=
  p ← read_pool r ;
  match p !! key with
  | Some _ => write_pool r (delete key p)
  | None => raise KeyError
  end.

(** Reading a label dictionary. *)
Definition read_Y_dict (r : loc) : M (gmap string tensor) :=
  λ h, expect InvalidRef (Y_dicts h !! r) h.

(** [Y_dict[key]]. *)
Definition Y_getitem (r : loc) (key : string) : M tensor :=
  d ← read_Y_dict r ; expect KeyError (d !! key).

(** Replacing the contents of a label dictionary, in place. *)
Definition write_Y_dict (r : loc) (d : gmap string tensor) : M unit :=
  λ h, (Ok tt,
        {| module_objs := module_objs h; pool_objs := pool_objs h;
           list_objs := list_objs h; Y_dicts := <[r := d]> (Y_dicts h) |}).

(** [Y_dict[key] = t]. *)
Definition Y_setitem (r : loc) (key : string) (t : tensor) : M unit :=
  d ← read_Y_dict r ; write_Y_dict r (<[key := t]> d).

(** ** Tensors *)

(** 64-bit two's complement wrap-around of [torch.int64] arithmetic. *)
Definition wrap64 (z : Z) : Z := (z + 2 ^ 63) mod 2 ^ 64 - 2 ^ 63.

Definition int64 (z : Z) : Prop := - 2 ^ 63 ≤ z < 2 ^ 63.

Definition mul64 (x y : Z) : Z := wrap64 (x * y).

(** [a * b] on one-dimensional tensors: elementwise when the sizes agree and
    broadcast when one of them has a single element; there is no product
    otherwise. *)
Definition broadcast_mul (a b : tensor) : option tensor :=
  if (length a =? length b)%nat then Some (zip_with mul64 a b)
  else match a, b with
       | [x], _ => Some (mul64 x <$> b)
       | _, [y] => Some ((λ x, mul64 x y) <$> a)
       | _, _ => None
       end.

Definition tensor_mul (a b : tensor) : M tensor :=
  expect RuntimeError (broadcast_mul a b).

(** ** The module *)

Section Utils.

(** [convert_labels(_, source="onezero", target="categorical")] of
    [snorkel.analysis.utils]: the recoding of membership values into the
    two categorical classes. *)
Variable convert_labels : tensor → tensor.

(** The name the [Operation] constructor gives an operation that is built
    without an explicit name, from its module name. *)
Variable operation_name : string → string.

Definition Operation_ (module_name : string) (inputs : list input_ref)
  : Operation :=
  mkOperation (operation_name module_name) module_name inputs.

(** [_add_base_slice]: the base slice is added when no name is "base";
    the names are then a new list, the caller's list is not written. *)
Definition _add_base_slice (slice_labels : ndarray) (slice_names : loc)
  : M (ndarray * loc) :=
  names ← read_list slice_names ;
  if bool_decide ("base" ∈ names) then mret (slice_labels, slice_names)
  else
    let slice_labels := hstack_ones slice_labels in
    slice_names ← new_list (names ++ ["base"]) ;
    mret (slice_labels, slice_names).

Definition ind_task_name_of (base_name slice_name : string) : string :=
  base_name +:+ "_slice:" +:+ slice_name +:+ "_ind".

Definition pred_task_name_of (base_name slice_name : string) : string :=
  base_name +:+ "_slice:" +:+ slice_name +:+ "_pred".

(** The body of the loop of [add_slice_labels]. *)
Definition add_slice_labels_body (dataloader : loc) (base_task : Task)
    (slice_labels : ndarray) (labels : tensor)
    (i_slice_name : nat * string) : M unit :=
  let '(i, slice_name) := i_slice_name in
  let indicators := column slice_labels i in
  let ind_labels := convert_labels indicators in
  pred_labels ← tensor_mul indicators labels ;
  let ind_task_name := ind_task_name_of (name base_task) slice_name in
  let pred_task_name := pred_task_name_of (name base_task) slice_name in
  Y_setitem dataloader ind_task_name ind_labels ;;
  Y_setitem dataloader pred_task_name pred_labels.

(** [add_slice_labels]; [slice_labels] is the array after [toarray()]. *)
Definition add_slice_labels (dataloader : loc) (base_task : Task)
    (slice_labels : ndarray) (slice_names : loc) : M unit :=
  '(slice_labels, slice_names) ← _add_base_slice slice_labels slice_names ;
  names ← read_list slice_names ;
  assert (num_slices slice_labels =? length names)%nat ;;
  labels ← Y_getitem dataloader (name base_task) ;
  for_each (enumerate names)
    (add_slice_labels_body dataloader base_task slice_labels labels).

(** The body of the loop that creates the slice indicator tasks; the
    local lists [slice_tasks] and [slice_task_ops] are the loop state. *)
Definition ind_task_body (base_task : Task) (head_module_op : Operation)
    (body_flow : list Operation) (neck_size : nat)
    (st : list Task * list Operation) (slice_name : string)
  : M (list Task * list Operation) :=
  let '(slice_tasks, slice_task_ops) := st in
  let ind_task_name := ind_task_name_of (name base_task) slice_name in
  let ind_head_module_name := ind_task_name +:+ "_head" in
  ind_head_module ← new_module (Linear neck_size 2) ;
  let ind_module_pool := module_pool base_task in
  pool_setitem ind_module_pool ind_head_module_name ind_head_module ;;
  let ind_head_op :=
    Operation_ ind_head_module_name (inputs head_module_op) in
  let ind_task_ops := [ind_head_op] in
  let slice_task_ops := slice_task_ops ++ ind_task_ops in
  let ind_task_flow := body_flow ++ ind_task_ops in
  let ind_task :=
    mkTask ind_task_name ind_module_pool ind_task_flow (mkScorer ["f1"]) in
  mret (slice_tasks ++ [ind_task], slice_task_ops).

(** The body of the loop that creates the slice predictor tasks. *)
Definition pred_task_body (base_task : Task) (head_module_op : Operation)
    (body_flow : list Operation) (neck_size : nat)
    (shared_pred_head_module : loc)
    (st : list Task * list Operation) (slice_name : string)
  : M (list Task * list Operation) :=
  let '(slice_tasks, slice_task_ops) := st in
  let pred_task_name := pred_task_name_of (name base_task) slice_name in
  let pred_head_module_name := pred_task_name +:+ "_head" in
  let pred_transform_module_name := pred_task_name +:+ "_transform" in
  pred_transform_module ← new_module (Linear neck_size neck_size) ;
  let pred_module_pool := module_pool base_task in
  pool_setitem pred_module_pool pred_transform_module_name
    pred_transform_module ;;
  pool_setitem pred_module_pool pred_head_module_name
    shared_pred_head_module ;;
  let pred_transform_op :=
    Operation_ pred_transform_module_name (inputs head_module_op) in
  let pred_head_op :=
    Operation_ pred_head_module_name
      [OpOutput (op_name pred_transform_op) 0] in
  let pred_task_ops := [pred_transform_op; pred_head_op] in
  let slice_task_ops := slice_task_ops ++ pred_task_ops in
  let pred_task_flow := body_flow ++ pred_task_ops in
  let pred_task :=
    mkTask pred_task_name pred_module_pool pred_task_flow
      (scorer base_task) in
  mret (slice_tasks ++ [pred_task], slice_task_ops).

(** [convert_to_slice_tasks]. *)
Definition convert_to_slice_tasks (base_task : Task) (slice_names : loc)
  : M (list Task) :=
  names ← read_list slice_names ;
  slice_names ←
    (if bool_decide ("base" ∈ names) then mret slice_names
     else new_list (names ++ ["base"])) ;
  let slice_tasks : list Task := [] in
  let slice_task_ops : list Operation := [] in
  head_module_op ← expect IndexError (last (task_flow base_task)) ;
  head_module ←
    pool_getitem (module_pool base_task) (module_name head_module_op) ;
  head_module_obj ← read_module head_module ;
  let head_module :=
    match head_module_obj with
    | DataParallel inner => inner
    | _ => head_module
    end in
  head_module_obj ← read_module head_module ;
  '(neck_size, base_task_cardinality) ←
    match head_module_obj with
    | Linear in_features out_features => mret (in_features, out_features)
    | _ => raise AttributeError
    end ;
  pool_delitem (module_pool base_task) (module_name head_module_op) ;;
  let body_flow := removelast (task_flow base_task) in
  names ← read_list slice_names ;
  '(slice_tasks, slice_task_ops) ←
    for_fold names
      (ind_task_body base_task head_module_op body_flow neck_size)
      (slice_tasks, slice_task_ops) ;
  shared_pred_head_module ←
    new_module (Linear neck_size base_task_cardinality) ;
  '(slice_tasks, slice_task_ops) ←
    for_fold names
      (pred_task_body base_task head_module_op body_flow neck_size
         shared_pred_head_module)
      (slice_tasks, slice_task_ops) ;
  let master_task_name := name base_task in
  let master_combiner_module_name :=
    name base_task +:+ "_master_combiner" in
  master_combiner_module ← new_module SliceCombinerModule ;
  let master_head_module_name := name base_task +:+ "_master_head" in
  let master_head_module := head_module in
  master_module_pool ←
    ModuleDict [(master_combiner_module_name, master_combiner_module);
                (master_head_module_name, master_head_module)] ;
  let master_combiner_op := Operation_ master_combiner_module_name [] in
  let master_head_op :=
    Operation_ master_head_module_name
      [OpOutput (op_name master_combiner_op) 0] in
  let master_task_flow :=
    body_flow ++ slice_task_ops ++ [master_combiner_op; master_head_op] in
  let master_task :=
    mkTask master_task_name master_module_pool master_task_flow
      (scorer base_task) in
  mret (slice_tasks ++ [master_task]).

End Utils.

(** ** Derived terms: what the functions compute and leave *)

(** How often a name occurs in a list of slice names. *)
Definition count_name (s : string) (l : list string) : nat :=
  length (filter (λ x, x = s) l).

(** The names and the array after normalization, by the two branches of
    [_add_base_slice]. *)
Definition normal_names (names : list string) : list string :=
  if bool_decide ("base" ∈ names) then names else names ++ ["base"].

Definition normal_labels (names : list string) (a : ndarray) : ndarray :=
  if bool_decide ("base" ∈ names) then a else hstack_ones a.

(** The heap with the label dictionary at [r] replaced. *)
Definition set_Y_dict (h : heap) (r : loc) (d : gmap string tensor) : heap :=
  {| module_objs := module_objs h; pool_objs := pool_objs h;
     list_objs := list_objs h; Y_dicts := <[r := d]> (Y_dicts h) |}.

(** The two entries that one iteration of the loop of [add_slice_labels]
    writes. *)
Definition slice_entries (convert_labels : tensor → tensor)
    (base_task : Task) (slice_labels : ndarray) (labels : tensor)
    (d : gmap string tensor) (i_slice_name : nat * string)
  : gmap string tensor :=
  <[pred_task_name_of (name base_task) i_slice_name.2 :=
      default [] (broadcast_mul (column slice_labels i_slice_name.1) labels)]>
    (<[ind_task_name_of (name base_task) i_slice_name.2 :=
         convert_labels (column slice_labels i_slice_name.1)]> d).

(** The outcome of [add_slice_labels] on a heap [h1]: the assertion, the
    lookup of the base labels, the first product, and then the loop, which
    cannot fail any more. *)
Definition add_slice_labels_outcome (convert_labels : tensor → tensor)
    (dataloader : loc) (base_task : Task) (slice_labels : ndarray)
    (names : list string) (Y : gmap string tensor) (h1 : heap)
  : result unit * heap :=
  if (num_slices (normal_labels names slice_labels)
      =? length (normal_names names))%nat
  then
    match Y !! name base_task with
    | None => (Raise KeyError, h1)
    | Some labels =>
        match broadcast_mul
                (column (normal_labels names slice_labels) 0) labels with
        | None => (Raise RuntimeError, h1)
        | Some _ =>
            (Ok tt,
             set_Y_dict h1 dataloader
               (foldl (slice_entries convert_labels base_task
                         (normal_labels names slice_labels) labels)
                  Y (enumerate (normal_names names))))
        end
    end
  else (Raise AssertionError, h1).

(** ** The tasks, operations and pools that the expander builds *)

Section ExpanderTerms.

Variable operation_name : string → string.
Variables (base_task : Task) (head_module_op : Operation).

Definition ind_head_module_name_of (slice_name : string) : string :=
  ind_task_name_of (name base_task) slice_name +:+ "_head".

Definition pred_head_module_name_of (slice_name : string) : string :=
  pred_task_name_of (name base_task) slice_name +:+ "_head".

Definition pred_transform_module_name_of (slice_name : string) : string :=
  pred_task_name_of (name base_task) slice_name +:+ "_transform".

(** The operation of the indicator head of a slice. *)
Definition ind_head_op_of (slice_name : string) : Operation :=
  Operation_ operation_name (ind_head_module_name_of slice_name)
    (inputs head_module_op).

(** The two operations of the predictor of a slice. *)
Definition pred_task_ops_of (slice_name : string) : list Operation :=
  [Operation_ operation_name (pred_transform_module_name_of slice_name)
     (inputs head_module_op);
   Operation_ operation_name (pred_head_module_name_of slice_name)
     [OpOutput
        (operation_name (pred_transform_module_name_of slice_name)) 0]].

Definition ind_task_of (slice_name : string) : Task :=
  mkTask (ind_task_name_of (name base_task) slice_name)
    (module_pool base_task)
    (removelast (task_flow base_task) ++ [ind_head_op_of slice_name])
    (mkScorer ["f1"]).

Definition pred_task_of (slice_name : string) : Task :=
  mkTask (pred_task_name_of (name base_task) slice_name)
    (module_pool base_task)
    (removelast (task_flow base_task) ++ pred_task_ops_of slice_name)
    (scorer base_task).

(** All operations of the slice tasks, in the order the two loops
    collect them. *)
Definition slice_task_ops_of (names : list string) : list Operation :=
  (ind_head_op_of <$> names) ++ concat (pred_task_ops_of <$> names).

Definition master_task_of (names : list string) (master_module_pool : loc)
  : Task :=
  mkTask (name base_task) master_module_pool
    (removelast (task_flow base_task) ++ slice_task_ops_of names ++
     [Operation_ operation_name (name base_task +:+ "_master_combiner") [];
      Operation_ operation_name (name base_task +:+ "_master_head")
        [OpOutput
           (operation_name (name base_task +:+ "_master_combiner")) 0]])
    (scorer base_task).

(** The shared pool after the indicator loop; the heads are the module
    objects created from reference [n] on. *)
Fixpoint ind_pool (n : loc) (names : list string) (pool : gmap string loc)
  : gmap string loc :=
  match names with
  | [] => pool
  | s :: names' =>
      ind_pool (S n) names' (<[ind_head_module_name_of s := n]> pool)
  end.

(** The shared pool after the predictor loop; the transforms are the
    module objects created from reference [n] on. *)
Fixpoint pred_pool (shared_pred_head_module n : loc) (names : list string)
    (pool : gmap string loc) : gmap string loc :=
  match names with
  | [] => pool
  | s :: names' =>
      pred_pool shared_pred_head_module (S n) names'
        (<[pred_head_module_name_of s := shared_pred_head_module]>
           (<[pred_transform_module_name_of s := n]> pool))
  end.

(** The pool of the master task. *)
Definition master_pool (master_combiner_module master_head_module : loc)
  : gmap string loc :=
  <[name base_task +:+ "_master_head" := master_head_module]>
    (<[name base_task +:+ "_master_combiner" := master_combiner_module]> ∅).

End ExpanderTerms.

(** The module that [head_module] denotes once a replication wrapper is
    removed. *)
Definition unwrapped (head_module_obj : module) (head_module : loc) : loc :=
  match head_module_obj with
  | DataParallel inner => inner
  | _ => head_module
  end.

(** The list objects that normalization creates. *)
Definition new_name_lists (names : list string) : list (list string) :=
  if bool_decide ("base" ∈ names) then [] else [names ++ ["base"]].

(** The heap that [convert_to_slice_tasks] leaves. *)
Definition expanded_heap (h : heap) (base_task : Task)
    (head_module_op : Operation) (names : list string)
    (pool : gmap string loc) (master_head_module : loc)
    (neck_size cardinality : nat) : heap :=
  let n0 := length (module_objs h) in
  let N := length (normal_names names) in
  {| module_objs :=
       module_objs h ++ replicate N (Linear neck_size 2)
       ++ [Linear neck_size cardinality]
       ++ replicate N (Linear neck_size neck_size)
       ++ [SliceCombinerModule];
     pool_objs :=
       <[module_pool base_task :=
           pred_pool base_task (n0 + N) (n0 + N + 1) (normal_names names)
             (ind_pool base_task n0 (normal_names names)
                (delete (module_name head_module_op) pool))]>
         (pool_objs h)
       ++ [master_pool base_task (n0 + N + 1 + N) master_head_module];
     list_objs := list_objs h ++ new_name_lists names;
     Y_dicts := Y_dicts h |}.

(** A computation that leaves every existing list object as it is, whatever
    its outcome. *)
Definition keeps_lists {A} (m : M A) : Prop :=
  ∀ h r (l : list string),
    list_objs h !! r = Some l → list_objs (m h).2 !! r = Some l.

(** A loop body keeps its modules visible: once the iteration for a slice
    [s] has run, after those for the slices [done], all of them names
    without ".", the pool at [pool_ref] has the module named [key s], in
    the very heap in which the iterations for the slices [rest] then
    run. *)
Definition visible_to_next_task {S} (body : S → string → M S)
    (pool_ref : loc) (key : string → string) : Prop :=
  ∀ (h0 : heap) (pool0 : gmap string loc) (st0 : S)
    (done : list string) (s : string) (rest : list string),
    pool_objs h0 !! pool_ref = Some pool0 →
    Forall (λ s, has_dot s = false) (done ++ [s]) →
    ∃ st1 h1 pool1,
      for_fold (done ++ [s]) body st0 h0 = (Ok st1, h1) ∧
      pool_objs h1 !! pool_ref = Some pool1 ∧
      is_Some (pool1 !! key s) ∧
      for_fold (done ++ s :: rest) body st0 h0 = for_fold rest body st1 h1.

(** ** A worked example: one slice, three examples *)

Module Example.

(** The recoding of snorkel's [convert_labels] from "onezero" to
    "categorical": 0 becomes 2, every other value is kept. *)
Definition convert_labels (t : tensor) : tensor :=
  (λ x, if (x =? 0)%Z then 2 else x) <$> t.

(** An operation without an explicit name is named after its module. *)
Definition operation_name (module_name : string) : string := module_name.

(** Membership of three examples in the slice "rare": in, out, in. *)
Definition slice_labels : ndarray :=
  mkArray 3 1 (λ e _, match e with 1%nat => 0 | _ => 1 end).

(** A body operation [B] and a head operation [H]. *)
Definition base_task : Task :=
  mkTask "T" 0%nat
    [mkOperation "B" "B" [InputKey "data"];
     mkOperation "H" "H" [OpOutput "B" 0]]
    (mkScorer ["accuracy"]).

(** The head is an 8 to 3 linear module; list 0 holds the slice names and
    dictionary 0 the base labels. *)
Definition h : heap :=
  mkHeap [OtherModule 0; Linear 8 3]
    [ {[ "B" := 0%nat; "H" := 1%nat ]} ]
    [ ["rare"] ]
    [ {[ "T" := [1; 2; 1] ]} ].

(** The same task with its head under a replication wrapper. *)
Definition h_wrapped : heap :=
  mkHeap [OtherModule 0; Linear 8 3; DataParallel 1]
    [ {[ "B" := 0%nat; "H" := 2%nat ]} ]
    [ ["rare"] ]
    [ {[ "T" := [1; 2; 1] ]} ].

(** The same task with a second slice whose name has a ".". *)
Definition h_dotted : heap :=
  mkHeap [OtherModule 0; Linear 8 3]
    [ {[ "B" := 0%nat; "H" := 1%nat ]} ]
    [ ["rare"; "v1.0"] ]
    [ {[ "T" := [1; 2; 1] ]} ].

End Example.

(** ** Outcomes of the expander *)

(** The heap once the slice names are normalized: only the list objects
    may have grown. *)
Definition with_new_name_lists (h : heap) (names : list string) : heap :=
  {| module_objs := module_objs h; pool_objs := pool_objs h;
     list_objs := list_objs h ++ new_name_lists names;
     Y_dicts := Y_dicts h |}.

(** The length of the longest prefix of names without ".". *)
Fixpoint count_dotless (names : list string) : nat :=
  match names with
  | [] => 0
  | s :: names' => if has_dot s then 0 else S (count_dotless names')
  end.

(** The number of slices whose indicator head enters the pool: all of them
    unless the name of the base task or a slice name has a ".". *)
Definition bound_slices (base_task : Task) (names : list string) : nat :=
  if has_dot (name base_task) then 0
  else count_dotless (normal_names names).

(** The heap that [convert_to_slice_tasks] leaves when a module name is
    refused: the head module is out of the pool, the indicator heads of
    the slices before the refused one are in, and one more indicator head
    has been created. *)
Definition refused_heap (h : heap) (base_task : Task)
    (head_module_op : Operation) (names : list string)
    (pool : gmap string loc) (neck_size : nat) : heap :=
  {| module_objs :=
       module_objs h
       ++ replicate (S (bound_slices base_task names)) (Linear neck_size 2);
     pool_objs :=
       <[module_pool base_task :=
           ind_pool base_task (length (module_objs h))
             (take (bound_slices base_task names) (normal_names names))
             (delete (module_name head_module_op) pool)]>
         (pool_objs h);
     list_objs := list_objs h ++ new_name_lists names;
     Y_dicts := Y_dicts h |}.

(** The outcome of [convert_to_slice_tasks], check by check: the last
    operation, its module in the pool, the module object, the module
    object once unwrapped and its two dimensions, all before the first
    write; then the names of the modules, which the pool checks one by one
    as they are inserted, after the head module has been deleted. *)
Definition convert_to_slice_tasks_outcome (operation_name : string → string)
    (h : heap) (base_task : Task) (names : list string)
    (pool : gmap string loc) : result (list Task) * heap :=
  match last (task_flow base_task) with
  | None => (Raise IndexError, with_new_name_lists h names)
  | Some head_module_op =>
      match pool !! module_name head_module_op with
      | None => (Raise KeyError, with_new_name_lists h names)
      | Some head_module =>
          match module_objs h !! head_module with
          | None => (Raise InvalidRef, with_new_name_lists h names)
          | Some head_module_obj =>
              match module_objs h
                    !! unwrapped head_module_obj head_module with
              | None => (Raise InvalidRef, with_new_name_lists h names)
              | Some (Linear neck_size cardinality) =>
                  if (bound_slices base_task names
                      =? length (normal_names names))%nat
                  then
                    (Ok ((ind_task_of operation_name base_task
                            head_module_op <$> normal_names names)
                         ++ (pred_task_of operation_name base_task
                               head_module_op <$> normal_names names)
                         ++ [master_task_of operation_name base_task
                               head_module_op (normal_names names)
                               (length (pool_objs h))]),
                     expanded_heap h base_task head_module_op names pool
                       (unwrapped head_module_obj head_module) neck_size
                       cardinality)
                  else
                    (Raise KeyError,
                     refused_heap h base_task head_module_op names pool
                       neck_size)
              | Some _ => (Raise AttributeError, with_new_name_lists h names)
              end
          end
      end
  end.

(** A computation that leaves a part [part] of the heap as it is, whatever
    its outcome. *)
Definition unchanged {A X} (part : heap → X) (m : M A) : Prop :=
  ∀ h, part (m h).2 = part h.

(** * Lemmas *)

(** ** Strings: the f-string names of the module *)

Module Str.

Lemma app_cons (x : Ascii.ascii) (a b : string) :
  String x a +:+ b = String x (a +:+ b).
Proof. reflexivity. Qed.

Lemma app_nil (b : string) : "" +:+ b = b.
Proof. reflexivity. Qed.

Lemma app_assoc (a b c : string) : (a +:+ b) +:+ c = a +:+ (b +:+ c).
Proof.
  induction a as [|x a IH]; [reflexivity|].
  rewrite !app_cons. by f_equal.
Qed.

Lemma app_length (a b : string) :
  String.length (a +:+ b) = (String.length a + String.length b)%nat.
Proof.
  induction a as [|x a IH]; [reflexivity|].
  rewrite app_cons. simpl. by f_equal.
Qed.

(** Two concatenations whose right parts have the same length agree part
    by part. *)
Lemma app_inj_suffix (a a' b b' : string) :
  String.length b = String.length b' →
  a +:+ b = a' +:+ b' → a = a' ∧ b = b'.
Proof.
  intros Hlen. revert a'.
  induction a as [|x a IH]; intros [|x' a'] Heq;
    rewrite ?app_cons, ?app_nil in Heq.
  - done.
  - apply (f_equal String.length) in Heq. simpl in Heq.
    rewrite app_length in Heq. lia.
  - apply (f_equal String.length) in Heq. simpl in Heq.
    rewrite app_length in Heq. lia.
  - injection Heq as -> Heq. destruct (IH _ Heq) as [-> ->]. done.
Qed.

Lemma app_nonempty_ne (a b : string) : b ≠ "" → a +:+ b ≠ a.
Proof.
  intros Hb Heq. apply (f_equal String.length) in Heq.
  rewrite app_length in Heq. destruct b; [done | simpl in Heq; lia].
Qed.

End Str.

(** ** Running monadic code *)

Section Run.

Context {A B : Type}.

Lemma run_ret (a : A) (h : heap) : (mret a : M A) h = (Ok a, h).
Proof. reflexivity. Qed.

Lemma run_raise (e : exn) (h : heap) : @raise A e h = (Raise e, h).
Proof. reflexivity. Qed.

Lemma run_bind_ok (m : M A) (k : A → M B) (h h' : heap) (a : A) :
  m h = (Ok a, h') → (m ≫= k : M B) h = k a h'.
Proof. intros H. unfold mbind, M_bind. by rewrite H. Qed.

Lemma run_bind_raise (m : M A) (k : A → M B) (h h' : heap) (e : exn) :
  m h = (Raise e, h') → (m ≫= k : M B) h = (Raise e, h').
Proof. intros H. unfold mbind, M_bind. by rewrite H. Qed.

Lemma run_expect_some (e : exn) (o : option A) (a : A) (h : heap) :
  o = Some a → expect e o h = (Ok a, h).
Proof. by intros ->. Qed.

Lemma run_expect_none (e : exn) (o : option A) (h : heap) :
  o = None → expect e o h = (Raise e, h).
Proof. by intros ->. Qed.

End Run.

(** Heaps are compared field by field. *)
Lemma heap_eq (h1 h2 : heap) :
  module_objs h1 = module_objs h2 → pool_objs h1 = pool_objs h2 →
  list_objs h1 = list_objs h2 → Y_dicts h1 = Y_dicts h2 → h1 = h2.
Proof. destruct h1, h2; simpl; by intros -> -> -> ->. Qed.

(** ** Base-slice normalization *)

Lemma count_name_app (s : string) (l1 l2 : list string) :
  count_name s (l1 ++ l2) = (count_name s l1 + count_name s l2)%nat.
Proof. unfold count_name. by rewrite filter_app, length_app. Qed.

Lemma count_name_zero (s : string) (l : list string) :
  s ∉ l ↔ count_name s l = 0%nat.
Proof.
  unfold count_name. induction l as [|x l IH].
  { by split; [|intros _ ?%elem_of_nil]. }
  rewrite not_elem_of_cons, filter_cons. destruct (decide (x = s)) as [->|Hne].
  - simpl. split; [intros [? _]; done | lia].
  - rewrite <- IH. split; [by intros [_ ?]|].
    intros ?. split; [congruence | done].
Qed.

Lemma normal_names_base (names : list string) : "base" ∈ normal_names names.
Proof.
  unfold normal_names. case_bool_decide; [done|].
  apply elem_of_app. right. apply list_elem_of_singleton. done.
Qed.

Lemma normal_names_nonempty (names : list string) : normal_names names ≠ [].
Proof.
  intros H. pose proof (normal_names_base names) as Hb.
  rewrite H in Hb. by apply elem_of_nil in Hb.
Qed.

Section AddBaseSlice.

Variables (h : heap) (slice_labels : ndarray) (slice_names : loc).
Variable names : list string.
Hypothesis Hnames : list_objs h !! slice_names = Some names.

(** What [_add_base_slice] returns, and the heap it leaves. *)
Lemma add_base_slice_run :
  ∃ r' h',
    _add_base_slice slice_labels slice_names h
    = (Ok (normal_labels names slice_labels, r'), h') ∧
    list_objs h' !! r' = Some (normal_names names) ∧
    (∀ r l, list_objs h !! r = Some l → list_objs h' !! r = Some l) ∧
    module_objs h' = module_objs h ∧ pool_objs h' = pool_objs h ∧
    Y_dicts h' = Y_dicts h.
Proof.
  unfold _add_base_slice, normal_labels, normal_names.
  rewrite (run_bind_ok _ _ h h names);
    [|unfold read_list; by apply run_expect_some].
  case_bool_decide.
  - exists slice_names, h. by rewrite run_ret.
  - eexists _, _. split; [reflexivity|]. simpl.
    split; [by rewrite lookup_app_r, Nat.sub_diag|].
    split; [|done]. intros r l Hl. by apply lookup_app_l_Some.
Qed.

End AddBaseSlice.

(** ** Tensor products *)

Lemma wrap64_int64 (z : Z) : int64 z → wrap64 z = z.
Proof. unfold int64, wrap64. intros H. rewrite Z.mod_small; lia. Qed.

Lemma mul64_0_l (y : Z) : mul64 0 y = 0.
Proof. reflexivity. Qed.

Lemma mul64_1_l (y : Z) : int64 y → mul64 1 y = y.
Proof. intros H. unfold mul64. rewrite Z.mul_1_l. by apply wrap64_int64. Qed.

Lemma length_column (a : ndarray) (i : nat) :
  length (column a i) = num_points a.
Proof. unfold column. by rewrite length_fmap, length_seq. Qed.

Lemma lookup_column (a : ndarray) (i e : nat) :
  (e < num_points a)%nat → column a i !! e = Some (item a e i).
Proof.
  intros He. unfold column. rewrite list_lookup_fmap, lookup_seq_lt; done.
Qed.

(** Whether a product exists depends on the two sizes only. *)
Lemma broadcast_mul_sizes (a a' b : tensor) :
  length a = length a' →
  is_Some (broadcast_mul a b) → is_Some (broadcast_mul a' b).
Proof.
  unfold broadcast_mul. intros Hlen. rewrite <- Hlen.
  destruct (length a =? length b)%nat; [eauto|].
  destruct a as [|x [|x' a]], a' as [|y [|y' a']]; simpl in Hlen; try lia;
    destruct b as [|z [|z' b]]; eauto.
Qed.

Lemma broadcast_mul_same_size (a b : tensor) :
  length a = length b → broadcast_mul a b = Some (zip_with mul64 a b).
Proof. intros Hlen. unfold broadcast_mul. by rewrite Hlen, Nat.eqb_refl. Qed.

(** ** The label dictionary of a data loader *)

Lemma set_Y_dict_id (h : heap) (r : loc) (d : gmap string tensor) :
  Y_dicts h !! r = Some d → set_Y_dict h r d = h.
Proof. intros H. apply heap_eq; simpl; try done. by apply list_insert_id. Qed.

Lemma set_Y_dict_twice (h : heap) (r : loc) (d d' : gmap string tensor) :
  set_Y_dict (set_Y_dict h r d) r d' = set_Y_dict h r d'.
Proof. apply heap_eq; simpl; try done. by rewrite list_insert_insert_eq. Qed.

Lemma lookup_set_Y_dict (h : heap) (r : loc) (d d' : gmap string tensor) :
  Y_dicts h !! r = Some d → Y_dicts (set_Y_dict h r d') !! r = Some d'.
Proof.
  intros H. simpl. apply list_lookup_insert_eq. by eapply lookup_lt_Some.
Qed.

Lemma run_Y_setitem (h : heap) (r : loc) (d : gmap string tensor)
    (key : string) (t : tensor) :
  Y_dicts h !! r = Some d →
  Y_setitem r key t h = (Ok tt, set_Y_dict h r (<[key := t]> d)).
Proof.
  intros H. unfold Y_setitem.
  rewrite (run_bind_ok _ _ h h d); [done|].
  unfold read_Y_dict. by apply run_expect_some.
Qed.

Lemma run_Y_getitem (h : heap) (r : loc) (d : gmap string tensor)
    (key : string) :
  Y_dicts h !! r = Some d →
  Y_getitem r key h = expect KeyError (d !! key) h.
Proof.
  intros H. unfold Y_getitem.
  rewrite (run_bind_ok _ _ h h d); [done|].
  unfold read_Y_dict. by apply run_expect_some.
Qed.

(** ** The loop of the label materializer *)

Section LabelLoop.

Variable convert_labels : tensor → tensor.
Variables (dataloader : loc) (base_task : Task).
Variables (slice_labels : ndarray) (labels : tensor).

Lemma labels_loop_run (l : list (nat * string)) (h : heap)
    (d : gmap string tensor) :
  Y_dicts h !! dataloader = Some d →
  is_Some (broadcast_mul (column slice_labels 0) labels) →
  for_each l
    (add_slice_labels_body convert_labels dataloader base_task
       slice_labels labels) h
  = (Ok tt,
   set_Y_dict h dataloader
     (foldl (slice_entries convert_labels base_task slice_labels labels)
        d l)).
Proof.
  intros Hd Hmul. revert h d Hd.
  induction l as [|[i s] l IH]; intros h d Hd; simpl.
  - by rewrite run_ret, set_Y_dict_id.
  - destruct (broadcast_mul_sizes (column slice_labels 0)
                (column slice_labels i) labels) as [pred Hpred];
      [by rewrite !length_column | done |].
    assert (add_slice_labels_body convert_labels dataloader base_task
              slice_labels labels (i, s) h
            = (Ok tt,
           set_Y_dict h dataloader
             (slice_entries convert_labels base_task slice_labels labels
                d (i, s))))
      as Hbody.
    { unfold add_slice_labels_body.
      erewrite run_bind_ok;
        [|unfold tensor_mul; by apply run_expect_some].
      erewrite run_bind_ok; [|by apply run_Y_setitem].
      erewrite run_Y_setitem; [|by eapply lookup_set_Y_dict].
      rewrite set_Y_dict_twice. unfold slice_entries. simpl.
      by rewrite Hpred. }
    rewrite (run_bind_ok _ _ _ _ _ Hbody).
    rewrite (IH _ (slice_entries convert_labels base_task slice_labels labels
                 d (i, s)));
      [|by eapply lookup_set_Y_dict].
    by rewrite set_Y_dict_twice.
Qed.

Lemma labels_loop_fail (i : nat) (s : string) (l : list (nat * string))
    (h : heap) :
  ¬ is_Some (broadcast_mul (column slice_labels 0) labels) →
  for_each ((i, s) :: l)
    (add_slice_labels_body convert_labels dataloader base_task
       slice_labels labels) h
  = (Raise RuntimeError, h).
Proof.
  intros Hmul. simpl.
  erewrite run_bind_raise; [done|].
  unfold add_slice_labels_body.
  erewrite run_bind_raise; [done|].
  unfold tensor_mul. apply run_expect_none.
  destruct (broadcast_mul (column slice_labels i) labels) eqn:E; [|done].
  destruct Hmul.
  apply (broadcast_mul_sizes (column slice_labels i)); [|by eauto].
  by rewrite !length_column.
Qed.

End LabelLoop.

(** ** The label materializer, outcome by outcome *)

Section Materializer.

Variable convert_labels : tensor → tensor.
Variables (h : heap) (dataloader : loc) (base_task : Task).
Variables (slice_labels : ndarray) (slice_names : loc).
Variables (names : list string) (Y : gmap string tensor).
Hypothesis Hnames : list_objs h !! slice_names = Some names.
Hypothesis HY : Y_dicts h !! dataloader = Some Y.

Lemma add_slice_labels_cases :
  ∃ h1,
    add_slice_labels convert_labels dataloader base_task slice_labels
      slice_names h
    = add_slice_labels_outcome convert_labels dataloader base_task slice_labels
    names Y h1 ∧
    (∀ r l, list_objs h !! r = Some l → list_objs h1 !! r = Some l) ∧
    module_objs h1 = module_objs h ∧ pool_objs h1 = pool_objs h ∧
    Y_dicts h1 = Y_dicts h.
Proof.
  destruct (add_base_slice_run h slice_labels slice_names names Hnames)
    as (r' & h1 & Hrun & Hr' & Hlists & Hmods & Hpools & HYs).
  exists h1. split; [|done].
  unfold add_slice_labels, add_slice_labels_outcome.
  rewrite (run_bind_ok _ _ _ _ _ Hrun).
  rewrite (run_bind_ok _ _ h1 h1 (normal_names names));
    [|unfold read_list; by apply run_expect_some].
  destruct (num_slices (normal_labels names slice_labels)
            =? length (normal_names names))%nat; [|done].
  rewrite (run_bind_ok _ _ h1 h1 tt); [|done].
  assert (Y_dicts h1 !! dataloader = Some Y) as HY1 by by rewrite HYs.
  destruct (Y !! name base_task) as [labels|] eqn:Hlabels.
  - rewrite (run_bind_ok _ _ h1 h1 labels);
      [|rewrite (run_Y_getitem _ _ Y); [by rewrite Hlabels | done]].
    destruct (broadcast_mul _ labels) as [p|] eqn:Hmul.
    + apply labels_loop_run; [done | by rewrite Hmul].
    + pose proof (normal_names_nonempty names) as Hne.
      destruct (normal_names names) as [|s l]; [done|].
      apply labels_loop_fail. rewrite Hmul. by intros [? ?].
  - erewrite run_bind_raise; [done|].
    rewrite (run_Y_getitem _ _ Y); [by rewrite Hlabels | done].
Qed.

End Materializer.

(** ** The names of the slice tasks *)

Lemma pred_task_name_inj (b s s' : string) :
  pred_task_name_of b s = pred_task_name_of b s' → s = s'.
Proof.
  unfold pred_task_name_of. intros H.
  do 2 apply String.app_inj in H.
  by destruct (Str.app_inj_suffix _ _ _ _ eq_refl H).
Qed.

Lemma ind_pred_task_name_ne (b s s' : string) :
  ind_task_name_of b s ≠ pred_task_name_of b s'.
Proof.
  unfold ind_task_name_of, pred_task_name_of. intros H.
  do 2 apply String.app_inj in H.
  change "_pred" with ("_" +:+ "pred") in H.
  rewrite <- Str.app_assoc in H.
  by destruct (Str.app_inj_suffix s (s' +:+ "_") "_ind" "pred" eq_refl H).
Qed.

Lemma ind_task_name_ne_base (b s : string) : ind_task_name_of b s ≠ b.
Proof. apply Str.app_nonempty_ne. done. Qed.

Lemma pred_task_name_ne_base (b s : string) : pred_task_name_of b s ≠ b.
Proof. apply Str.app_nonempty_ne. done. Qed.

(** ** Enumerations *)

Lemma lookup_enumerate {A} (l : list A) (i : nat) :
  enumerate l !! i = (λ x, (i, x)) <$> l !! i.
Proof.
  unfold enumerate. rewrite lookup_zip_with.
  destruct (l !! i) as [x|] eqn:E.
  - rewrite lookup_seq_lt; [done | by eapply lookup_lt_Some].
  - by destruct (seq 0 (length l) !! i).
Qed.

Lemma enumerate_snd {A} (l : list A) (i : nat) (x : A) :
  (i, x) ∈ enumerate l → l !! i = Some x.
Proof.
  intros [j Hj]%list_elem_of_lookup. rewrite lookup_enumerate in Hj.
  destruct (l !! j) as [y|] eqn:E; simpl in Hj; [|done].
  by injection Hj as <- <-.
Qed.

(** ** The entries written by the loop *)

Section SliceEntries.

Variable convert_labels : tensor → tensor.
Variables (base_task : Task) (slice_labels : ndarray) (labels : tensor).

Local Abbreviation entries :=
  (slice_entries convert_labels base_task slice_labels labels).
Local Abbreviation ind_key := (ind_task_name_of (name base_task)).
Local Abbreviation pred_key := (pred_task_name_of (name base_task)).

(** Keys that are not the name of a slice task keep their entry. *)
Lemma entries_frame (l : list (nat * string)) (d : gmap string tensor)
    (k : string) :
  (∀ i s, (i, s) ∈ l → k ≠ ind_key s ∧ k ≠ pred_key s) →
  foldl entries d l !! k = d !! k.
Proof.
  revert d. induction l as [|[i s] l IH]; intros d Hk; simpl; [done|].
  rewrite IH; [|intros i' s' ?; apply (Hk i'); by right].
  destruct (Hk i s) as [? ?]; [by left|].
  unfold slice_entries. simpl. by rewrite !lookup_insert_ne.
Qed.

(** No entry is removed. *)
Lemma entries_mono (l : list (nat * string)) (d : gmap string tensor)
    (k : string) :
  is_Some (d !! k) → is_Some (foldl entries d l !! k).
Proof.
  revert d. induction l as [|[i s] l IH]; intros d Hk; simpl; [done|].
  apply IH. unfold slice_entries. simpl.
  rewrite !lookup_insert_is_Some'. auto.
Qed.

(** Both entries of every slice are present in the end. *)
Lemma entries_written (l : list (nat * string)) (d : gmap string tensor)
    (i : nat) (s : string) :
  (i, s) ∈ l →
  is_Some (foldl entries d l !! ind_key s) ∧
  is_Some (foldl entries d l !! pred_key s).
Proof.
  revert d. induction l as [|[i0 s0] l IH]; intros d Hin; simpl.
  - by apply elem_of_nil in Hin.
  - apply elem_of_cons in Hin as [[= -> ->]|Hin]; [|by apply IH].
    split; apply entries_mono; unfold slice_entries; simpl;
      rewrite !lookup_insert_is_Some'; auto.
Qed.

(** The predictor entry of a name is the product for the last column
    that carries this name. *)
Lemma entries_last (l : list (nat * string)) (d : gmap string tensor)
    (j i : nat) (s : string) :
  l !! j = Some (i, s) →
  (∀ j' i', (j < j')%nat → l !! j' ≠ Some (i', s)) →
  foldl entries d l !! pred_key s
  = Some (default [] (broadcast_mul (column slice_labels i) labels)).
Proof.
  revert d j. induction l as [|[i0 s0] l IH]; intros d j Hj Hlast; [done|].
  destruct j as [|j]; simpl in *.
  - injection Hj as -> ->.
    rewrite entries_frame.
    + unfold slice_entries. simpl. by rewrite lookup_insert_eq.
    + intros i' s' [j' Hj']%list_elem_of_lookup.
      assert (s' ≠ s) as Hne.
      { intros ->. apply (Hlast (S j') i'); [lia | done]. }
      split.
      * intros H. symmetry in H. by apply ind_pred_task_name_ne in H.
      * intros H%pred_task_name_inj. done.
  - apply (IH _ j); [done|].
    intros j' i' Hlt. apply (Hlast (S j') i'). lia.
Qed.

End SliceEntries.

(** ** Module names and the checks of the pool *)

Lemma has_dot_app (a b : string) :
  has_dot (a +:+ b) = has_dot a || has_dot b.
Proof.
  induction a as [|c a IH]; [done|].
  rewrite Str.app_cons. simpl. by rewrite IH, orb_assoc.
Qed.

Lemma app_ne_empty (a b : string) : b ≠ "" → a +:+ b ≠ "".
Proof.
  intros Hb Heq. apply (f_equal String.length) in Heq.
  rewrite Str.app_length in Heq. destruct b; [done | simpl in Heq; lia].
Qed.

Lemma count_dotless_le (l : list string) :
  (count_dotless l ≤ length l)%nat.
Proof.
  induction l as [|s l IH]; simpl; [lia|]. destruct (has_dot s); lia.
Qed.

Lemma count_dotless_all (l : list string) :
  count_dotless l = length l ↔ Forall (λ s, has_dot s = false) l.
Proof.
  induction l as [|s l IH]; simpl; [by split|].
  rewrite Forall_cons, <- IH. destruct (has_dot s); split.
  - done.
  - by intros [? _].
  - intros [= ?]. done.
  - intros [_ ->]. done.
Qed.

Lemma normal_names_dotless (names : list string) :
  Forall (λ s, has_dot s = false) (normal_names names) ↔
  Forall (λ s, has_dot s = false) names.
Proof.
  unfold normal_names. case_bool_decide; [done|].
  rewrite Forall_app, Forall_singleton. split; [by intros [? _] | done].
Qed.

Lemma bound_slices_le (base_task : Task) (names : list string) :
  (bound_slices base_task names ≤ length (normal_names names))%nat.
Proof.
  unfold bound_slices. destruct (has_dot (name base_task)); [lia|].
  apply count_dotless_le.
Qed.

(** All slices are bound exactly when neither the name of the base task
    nor a slice name has a ".". *)
Lemma bound_slices_all (base_task : Task) (names : list string) :
  bound_slices base_task names = length (normal_names names) ↔
  has_dot (name base_task) = false ∧
  Forall (λ s, has_dot s = false) names.
Proof.
  unfold bound_slices. rewrite <- normal_names_dotless, <- count_dotless_all.
  destruct (has_dot (name base_task)); [|by split; [|intros [_ ?]]].
  split; [|by intros [? _]].
  intros H. pose proof (normal_names_nonempty names).
  destruct (normal_names names); [done | discriminate H].
Qed.

Lemma run_add_module_check_ok (key : string) (h : heap) :
  has_dot key = false → key ≠ "" → add_module_check key h = (Ok tt, h).
Proof.
  intros Hdot Hne. unfold add_module_check.
  by rewrite Hdot, bool_decide_eq_false_2.
Qed.

Lemma run_add_module_check_dot (key : string) (h : heap) :
  has_dot key = true → add_module_check key h = (Raise KeyError, h).
Proof. intros Hdot. unfold add_module_check. by rewrite Hdot. Qed.

Lemma run_pool_setitem (h : heap) (r : loc) (pool : gmap string loc)
    (key : string) (m : loc) :
  pool_objs h !! r = Some pool →
  has_dot key = false → key ≠ "" →
  pool_setitem r key m h
  = (Ok tt,
     {| module_objs := module_objs h;
        pool_objs := <[r := <[key := m]> pool]> (pool_objs h);
        list_objs := list_objs h; Y_dicts := Y_dicts h |}).
Proof.
  intros H Hdot Hne. unfold pool_setitem.
  rewrite (run_bind_ok _ _ h h pool);
    [|unfold read_pool; by apply run_expect_some].
  by rewrite (run_bind_ok _ _ h h tt)
    by by apply run_add_module_check_ok.
Qed.

Lemma run_pool_setitem_dot (h : heap) (r : loc) (pool : gmap string loc)
    (key : string) (m : loc) :
  pool_objs h !! r = Some pool →
  has_dot key = true →
  pool_setitem r key m h = (Raise KeyError, h).
Proof.
  intros H Hdot. unfold pool_setitem.
  rewrite (run_bind_ok _ _ h h pool);
    [|unfold read_pool; by apply run_expect_some].
  by rewrite (run_bind_raise _ _ h h KeyError)
    by by apply run_add_module_check_dot.
Qed.

(** A pool of two modules. *)
Lemma run_ModuleDict_two (h : heap) (k1 k2 : string) (m1 m2 : loc) :
  has_dot k1 = false → k1 ≠ "" → has_dot k2 = false → k2 ≠ "" →
  ModuleDict [(k1, m1); (k2, m2)] h
  = (Ok (length (pool_objs h)),
     {| module_objs := module_objs h;
        pool_objs := pool_objs h ++ [<[k2 := m2]> (<[k1 := m1]> ∅)];
        list_objs := list_objs h; Y_dicts := Y_dicts h |}).
Proof.
  intros Hd1 Hn1 Hd2 Hn2. unfold ModuleDict.
  erewrite run_bind_ok; [|reflexivity].
  erewrite run_bind_ok; [by rewrite run_ret|].
  simpl for_each.
  erewrite run_bind_ok;
    [|apply run_pool_setitem; [simpl|done|done];
      by rewrite lookup_app_r, Nat.sub_diag].
  erewrite run_bind_ok;
    [|apply run_pool_setitem; [simpl|done|done];
      rewrite insert_app_r_alt, Nat.sub_diag by done;
      by rewrite lookup_app_r, Nat.sub_diag].
  rewrite run_ret. f_equal. apply heap_eq; simpl; try done.
  by rewrite !insert_app_r_alt, !Nat.sub_diag by done.
Qed.

Section ModuleNameChecks.

Variable base_task : Task.

Lemma has_dot_ind_head (s : string) :
  has_dot (ind_head_module_name_of base_task s)
  = has_dot (name base_task) || has_dot s.
Proof.
  unfold ind_head_module_name_of, ind_task_name_of.
  rewrite !has_dot_app. simpl.
  by destruct (has_dot (name base_task)), (has_dot s).
Qed.

Lemma has_dot_pred_transform (s : string) :
  has_dot (pred_transform_module_name_of base_task s)
  = has_dot (name base_task) || has_dot s.
Proof.
  unfold pred_transform_module_name_of, pred_task_name_of.
  rewrite !has_dot_app. simpl.
  by destruct (has_dot (name base_task)), (has_dot s).
Qed.

Lemma has_dot_pred_head (s : string) :
  has_dot (pred_head_module_name_of base_task s)
  = has_dot (name base_task) || has_dot s.
Proof.
  unfold pred_head_module_name_of, pred_task_name_of.
  rewrite !has_dot_app. simpl.
  by destruct (has_dot (name base_task)), (has_dot s).
Qed.

Lemma ind_head_ne_empty (s : string) :
  ind_head_module_name_of base_task s ≠ "".
Proof. by apply app_ne_empty. Qed.

Lemma pred_transform_ne_empty (s : string) :
  pred_transform_module_name_of base_task s ≠ "".
Proof. by apply app_ne_empty. Qed.

Lemma pred_head_ne_empty (s : string) :
  pred_head_module_name_of base_task s ≠ "".
Proof. by apply app_ne_empty. Qed.

End ModuleNameChecks.

(** ** The two loops of the expander *)

Section ExpanderLoops.

Variable operation_name : string → string.
Variables (base_task : Task) (head_module_op : Operation).
Variable neck_size : nat.

(** The iteration for a slice whose module name the pool refuses: the
    indicator head is created and nothing else happens. *)
Lemma ind_task_body_refused (s : string) (h : heap)
    (pool : gmap string loc) (st : list Task * list Operation) :
  pool_objs h !! module_pool base_task = Some pool →
  has_dot (name base_task) || has_dot s = true →
  ind_task_body operation_name base_task head_module_op
    (removelast (task_flow base_task)) neck_size st s h
  = (Raise KeyError,
     {| module_objs := module_objs h ++ [Linear neck_size 2];
        pool_objs := pool_objs h;
        list_objs := list_objs h; Y_dicts := Y_dicts h |}).
Proof.
  intros Hpool Hdot. destruct st as [ts ops]. unfold ind_task_body.
  erewrite run_bind_ok; [|reflexivity].
  erewrite run_bind_raise; [done|].
  eapply run_pool_setitem_dot; [done|].
  fold (ind_head_module_name_of base_task s). by rewrite has_dot_ind_head.
Qed.

Hypothesis Hbase : has_dot (name base_task) = false.

Lemma ind_task_body_run (s : string) (h : heap) (pool : gmap string loc)
    (ts : list Task) (ops : list Operation) :
  pool_objs h !! module_pool base_task = Some pool →
  has_dot s = false →
  ind_task_body operation_name base_task head_module_op
    (removelast (task_flow base_task)) neck_size (ts, ops) s h
  = (Ok (ts ++ [ind_task_of operation_name base_task head_module_op s],
         ops ++ [ind_head_op_of operation_name base_task head_module_op s]),
     {| module_objs := module_objs h ++ [Linear neck_size 2];
        pool_objs :=
          <[module_pool base_task :=
              <[ind_head_module_name_of base_task s
                := length (module_objs h)]> pool]> (pool_objs h);
        list_objs := list_objs h; Y_dicts := Y_dicts h |}).
Proof.
  intros Hpool Hs. unfold ind_task_body.
  erewrite run_bind_ok; [|reflexivity].
  erewrite run_bind_ok;
    [|apply run_pool_setitem; [done | | apply ind_head_ne_empty];
      fold (ind_head_module_name_of base_task s);
      by rewrite has_dot_ind_head, Hbase, Hs].
  by rewrite run_ret.
Qed.

Lemma ind_loop_run (names : list string) (h : heap)
    (pool : gmap string loc) (ts : list Task) (ops : list Operation) :
  pool_objs h !! module_pool base_task = Some pool →
  Forall (λ s, has_dot s = false) names →
  for_fold names
    (ind_task_body operation_name base_task head_module_op
       (removelast (task_flow base_task)) neck_size)
    (ts, ops) h
  = (Ok (ts ++ (ind_task_of operation_name base_task head_module_op
                  <$> names),
         ops ++ (ind_head_op_of operation_name base_task head_module_op
                   <$> names)),
     {| module_objs :=
          module_objs h ++ replicate (length names) (Linear neck_size 2);
        pool_objs :=
          <[module_pool base_task :=
              ind_pool base_task (length (module_objs h)) names pool]>
            (pool_objs h);
        list_objs := list_objs h; Y_dicts := Y_dicts h |}).
Proof.
  intros Hpool Hdots. revert h pool ts ops Hpool.
  induction Hdots as [|s names Hs _ IH]; intros h pool ts ops Hpool; simpl.
  - rewrite run_ret, !app_nil_r. f_equal.
    apply heap_eq; simpl; try done. by rewrite list_insert_id.
  - rewrite (run_bind_ok _ _ _ _ _
               (ind_task_body_run s h pool ts ops Hpool Hs)).
    rewrite (IH _ (<[ind_head_module_name_of base_task s
                      := length (module_objs h)]> pool)); simpl.
    + rewrite list_insert_insert_eq, length_app, Nat.add_1_r.
      rewrite <- !(assoc_L (++)). done.
    + apply list_lookup_insert_eq. by eapply lookup_lt_Some.
Qed.

Variable shared_pred_head_module : loc.

Lemma pred_task_body_run (s : string) (h : heap) (pool : gmap string loc)
    (ts : list Task) (ops : list Operation) :
  pool_objs h !! module_pool base_task = Some pool →
  has_dot s = false →
  pred_task_body operation_name base_task head_module_op
    (removelast (task_flow base_task)) neck_size shared_pred_head_module
    (ts, ops) s h
  = (Ok (ts ++ [pred_task_of operation_name base_task head_module_op s],
         ops ++ pred_task_ops_of operation_name base_task head_module_op s),
     {| module_objs := module_objs h ++ [Linear neck_size neck_size];
        pool_objs :=
          <[module_pool base_task :=
              <[pred_head_module_name_of base_task s
                := shared_pred_head_module]>
                (<[pred_transform_module_name_of base_task s
                   := length (module_objs h)]> pool)]> (pool_objs h);
        list_objs := list_objs h; Y_dicts := Y_dicts h |}).
Proof.
  intros Hpool Hs. unfold pred_task_body.
  erewrite run_bind_ok; [|reflexivity].
  erewrite run_bind_ok;
    [|apply run_pool_setitem; [done | | apply pred_transform_ne_empty];
      fold (pred_transform_module_name_of base_task s);
      by rewrite has_dot_pred_transform, Hbase, Hs].
  erewrite run_bind_ok;
    [|apply run_pool_setitem;
      [simpl; apply list_lookup_insert_eq; by eapply lookup_lt_Some
      | | apply pred_head_ne_empty];
      fold (pred_head_module_name_of base_task s);
      by rewrite has_dot_pred_head, Hbase, Hs].
  rewrite run_ret. simpl. by rewrite list_insert_insert_eq.
Qed.

Lemma pred_loop_run (names : list string) (h : heap)
    (pool : gmap string loc) (ts : list Task) (ops : list Operation) :
  pool_objs h !! module_pool base_task = Some pool →
  Forall (λ s, has_dot s = false) names →
  for_fold names
    (pred_task_body operation_name base_task head_module_op
       (removelast (task_flow base_task)) neck_size
       shared_pred_head_module)
    (ts, ops) h
  = (Ok (ts ++ (pred_task_of operation_name base_task head_module_op
                  <$> names),
         ops ++ concat (pred_task_ops_of operation_name base_task
                          head_module_op <$> names)),
     {| module_objs :=
          module_objs h
          ++ replicate (length names) (Linear neck_size neck_size);
        pool_objs :=
          <[module_pool base_task :=
              pred_pool base_task shared_pred_head_module
                (length (module_objs h)) names pool]>
            (pool_objs h);
        list_objs := list_objs h; Y_dicts := Y_dicts h |}).
Proof.
  intros Hpool Hdots. revert h pool ts ops Hpool.
  induction Hdots as [|s names Hs _ IH]; intros h pool ts ops Hpool; simpl.
  - rewrite run_ret, !app_nil_r. f_equal.
    apply heap_eq; simpl; try done. by rewrite list_insert_id.
  - rewrite (run_bind_ok _ _ _ _ _
               (pred_task_body_run s h pool ts ops Hpool Hs)).
    erewrite IH; simpl.
    + rewrite list_insert_insert_eq, length_app, Nat.add_1_r.
      rewrite <- !(assoc_L (++)). done.
    + apply list_lookup_insert_eq. by eapply lookup_lt_Some.
Qed.

End ExpanderLoops.

(** The indicator loop stops at the first slice whose module name the pool
    refuses, with the heads of the slices before it in the pool and one
    more head created. *)
Lemma ind_loop_refused (operation_name : string → string)
    (base_task : Task) (head_module_op : Operation) (neck_size : nat)
    (names : list string) (h : heap) (pool : gmap string loc)
    (st : list Task * list Operation) :
  pool_objs h !! module_pool base_task = Some pool →
  let k := if has_dot (name base_task) then 0%nat
           else count_dotless names in
  (k < length names)%nat →
  for_fold names
    (ind_task_body operation_name base_task head_module_op
       (removelast (task_flow base_task)) neck_size) st h
  = (Raise KeyError,
     {| module_objs :=
          module_objs h ++ replicate (S k) (Linear neck_size 2);
        pool_objs :=
          <[module_pool base_task :=
              ind_pool base_task (length (module_objs h)) (take k names)
                pool]> (pool_objs h);
        list_objs := list_objs h; Y_dicts := Y_dicts h |}).
Proof.
  intros Hpool. revert h pool st Hpool.
  induction names as [|s names IH]; intros h pool st Hpool k Hk;
    [simpl in Hk; lia|].
  destruct (has_dot (name base_task) || has_dot s) eqn:Hdot.
  - assert (k = 0%nat) as ->.
    { subst k. simpl. destruct (has_dot (name base_task)); [done|].
      simpl in Hdot. by rewrite Hdot. }
    cbn [for_fold].
    rewrite (run_bind_raise _ _ _ _ _
               (ind_task_body_refused operation_name base_task
                  head_module_op neck_size s h pool st Hpool Hdot)).
    f_equal. apply heap_eq; simpl; try done. by rewrite list_insert_id.
  - apply orb_false_elim in Hdot as [Hbase Hs].
    subst k. rewrite Hbase in *. simpl in Hk. rewrite Hs in Hk.
    simpl count_dotless. rewrite Hs. destruct st as [ts ops].
    cbn [for_fold].
    rewrite (run_bind_ok _ _ _ _ _
               (ind_task_body_run operation_name base_task head_module_op
                  neck_size Hbase s h pool ts ops Hpool Hs)).
    rewrite (IH _ (<[ind_head_module_name_of base_task s
                      := length (module_objs h)]> pool));
      rewrite ?Hbase; simpl.
    + rewrite list_insert_insert_eq, length_app, Nat.add_1_r.
      rewrite <- !(assoc_L (++)). done.
    + apply list_lookup_insert_eq. by eapply lookup_lt_Some.
    + lia.
Qed.

(** ** The expander, step by step *)

Section Expander.

Variable operation_name : string → string.
Variables (h : heap) (base_task : Task) (slice_names : loc).
Variables (names : list string) (head_module_op : Operation).
Variables (pool : gmap string loc) (head_module : loc).
Variables (head_module_obj : module) (neck_size cardinality : nat).
Hypothesis Hnames : list_objs h !! slice_names = Some names.
Hypothesis Hflow : last (task_flow base_task) = Some head_module_op.
Hypothesis Hpool : pool_objs h !! module_pool base_task = Some pool.
Hypothesis Hhead : pool !! module_name head_module_op = Some head_module.
Hypothesis Hobj : module_objs h !! head_module = Some head_module_obj.
Hypothesis Hlinear :
  module_objs h !! unwrapped head_module_obj head_module
  = Some (Linear neck_size cardinality).

Lemma normalize_names_run :
  ∃ r',
    (if bool_decide ("base" ∈ names) then mret slice_names
     else new_list (names ++ ["base"])) h
    = (Ok r',
       {| module_objs := module_objs h; pool_objs := pool_objs h;
          list_objs := list_objs h ++ new_name_lists names;
          Y_dicts := Y_dicts h |}) ∧
    (list_objs h ++ new_name_lists names) !! r' = Some (normal_names names).
Proof.
  unfold new_name_lists, normal_names. case_bool_decide.
  - exists slice_names. rewrite run_ret, app_nil_r. split; [|done].
    f_equal. by apply heap_eq.
  - eexists. split; [reflexivity|].
    by rewrite lookup_app_r, Nat.sub_diag.
Qed.

(** The call up to the deletion of the head module, step by step. *)
Ltac run_checks :=
  unfold convert_to_slice_tasks;
  rewrite (run_bind_ok _ _ h h names);
    [|unfold read_list; by apply run_expect_some];
  destruct normalize_names_run as (r' & Hnorm & Hr');
  rewrite (run_bind_ok _ _ _ _ _ Hnorm);
  (erewrite run_bind_ok; [|by apply run_expect_some]);
  (erewrite run_bind_ok;
    [|unfold pool_getitem; erewrite run_bind_ok;
      [by apply run_expect_some
      |unfold read_pool; by apply run_expect_some]]);
  (erewrite run_bind_ok; [|unfold read_module; by apply run_expect_some]);
  (erewrite run_bind_ok;
    [|unfold read_module; apply run_expect_some; exact Hlinear]);
  (erewrite run_bind_ok; [|reflexivity]); lazy beta iota zeta;
  (erewrite run_bind_ok;
    [|unfold pool_delitem; erewrite run_bind_ok;
      [simpl; rewrite Hhead; reflexivity
      |unfold read_pool; by apply run_expect_some]]);
  (erewrite run_bind_ok;
    [|unfold read_list; by apply run_expect_some]).

(** A name with a "." is refused by the pool, after the head module has
    been deleted. *)
Lemma convert_to_slice_tasks_refused :
  (bound_slices base_task names < length (normal_names names))%nat →
  convert_to_slice_tasks operation_name base_task slice_names h
  = (Raise KeyError,
     refused_heap h base_task head_module_op names pool neck_size).
Proof.
  intros Hk. run_checks.
  erewrite run_bind_raise;
    [|apply (ind_loop_refused operation_name base_task head_module_op
               neck_size (normal_names names)); [|exact Hk];
      simpl; apply list_lookup_insert_eq; by eapply lookup_lt_Some].
  f_equal. apply heap_eq; simpl; try done.
  by rewrite list_insert_insert_eq.
Qed.

Hypothesis Hbase : has_dot (name base_task) = false.
Hypothesis Hdots : Forall (λ s, has_dot s = false) names.

Lemma convert_to_slice_tasks_run :
  convert_to_slice_tasks operation_name base_task slice_names h
  = (Ok ((ind_task_of operation_name base_task head_module_op
            <$> normal_names names)
         ++ (pred_task_of operation_name base_task head_module_op
               <$> normal_names names)
         ++ [master_task_of operation_name base_task head_module_op
               (normal_names names) (length (pool_objs h))]),
     expanded_heap h base_task head_module_op names pool
       (unwrapped head_module_obj head_module) neck_size cardinality).
Proof.
  pose proof (proj2 (normal_names_dotless names) Hdots) as Hdots'.
  run_checks.
  erewrite run_bind_ok;
    [|apply ind_loop_run; [done | | done]; simpl;
      apply list_lookup_insert_eq; by eapply lookup_lt_Some].
  lazy beta iota zeta.
  erewrite run_bind_ok; [|reflexivity]. lazy beta iota zeta.
  erewrite run_bind_ok;
    [|apply pred_loop_run; [done | | done]; simpl;
      apply list_lookup_insert_eq;
      rewrite length_insert; by eapply lookup_lt_Some].
  lazy beta iota zeta.
  erewrite run_bind_ok; [|reflexivity]. lazy beta iota zeta.
  erewrite run_bind_ok;
    [|apply run_ModuleDict_two;
      [rewrite has_dot_app, Hbase; reflexivity | by apply app_ne_empty
      |rewrite has_dot_app, Hbase; reflexivity | by apply app_ne_empty]].
  lazy beta iota zeta.
  rewrite run_ret. cbn [module_objs pool_objs list_objs Y_dicts].
  rewrite !list_insert_insert_eq, !length_insert, !length_app.
  rewrite !length_replicate. simpl length.
  unfold expanded_heap, master_task_of, slice_task_ops_of, master_pool.
  rewrite !app_nil_l, <- !(assoc_L (++)). reflexivity.
Qed.

End Expander.

(** ** The shared pool after the loops *)

Lemma pred_head_transform_name_ne (base_task : Task) (s s' : string) :
  pred_head_module_name_of base_task s
  ≠ pred_transform_module_name_of base_task s'.
Proof.
  unfold pred_head_module_name_of, pred_transform_module_name_of.
  intros H. change "_transform" with ("_tran" +:+ "sform") in H.
  rewrite <- Str.app_assoc in H.
  by destruct (Str.app_inj_suffix _ (_ +:+ "_tran") "_head" "sform" eq_refl H).
Qed.

Lemma master_names_ne (b : string) :
  b +:+ "_master_combiner" ≠ b +:+ "_master_head".
Proof. by intros H%String.app_inj. Qed.

Section Pools.

Variable base_task : Task.

Lemma ind_pool_app (l1 l2 : list string) (n : loc) (pool : gmap string loc) :
  ind_pool base_task n (l1 ++ l2) pool
  = ind_pool base_task (n + length l1) l2 (ind_pool base_task n l1 pool).
Proof.
  revert n pool. induction l1 as [|s l1 IH]; intros n pool; simpl.
  - by rewrite Nat.add_0_r.
  - rewrite IH. f_equal. lia.
Qed.

Lemma pred_pool_app (shared : loc) (l1 l2 : list string) (n : loc)
    (pool : gmap string loc) :
  pred_pool base_task shared n (l1 ++ l2) pool
  = pred_pool base_task shared (n + length l1) l2
      (pred_pool base_task shared n l1 pool).
Proof.
  revert n pool. induction l1 as [|s l1 IH]; intros n pool; simpl.
  - by rewrite Nat.add_0_r.
  - rewrite IH. f_equal. lia.
Qed.

(** The loops never remove a name from the pool. *)
Lemma ind_pool_mono (l : list string) (n : loc) (pool : gmap string loc)
    (k : string) :
  is_Some (pool !! k) → is_Some (ind_pool base_task n l pool !! k).
Proof.
  revert n pool. induction l as [|s l IH]; intros n pool Hk; simpl; [done|].
  apply IH. rewrite lookup_insert_is_Some'. auto.
Qed.

Lemma pred_pool_mono (shared : loc) (l : list string) (n : loc)
    (pool : gmap string loc) (k : string) :
  is_Some (pool !! k) → is_Some (pred_pool base_task shared n l pool !! k).
Proof.
  revert n pool. induction l as [|s l IH]; intros n pool Hk; simpl; [done|].
  apply IH. rewrite !lookup_insert_is_Some'. auto.
Qed.

(** Every slice has its indicator head in the pool after the first loop. *)
Lemma ind_pool_written (l : list string) (n : loc) (pool : gmap string loc)
    (s : string) :
  s ∈ l →
  is_Some (ind_pool base_task n l pool !! ind_head_module_name_of base_task s).
Proof.
  revert n pool. induction l as [|s0 l IH]; intros n pool Hin; simpl.
  - by apply elem_of_nil in Hin.
  - apply elem_of_cons in Hin as [->|Hin]; [|by apply IH].
    apply ind_pool_mono. rewrite lookup_insert_is_Some'. auto.
Qed.

(** Every slice has its transform in the pool after the second loop. *)
Lemma pred_pool_written (shared : loc) (l : list string) (n : loc)
    (pool : gmap string loc) (s : string) :
  s ∈ l →
  is_Some (pred_pool base_task shared n l pool
           !! pred_transform_module_name_of base_task s).
Proof.
  revert n pool. induction l as [|s0 l IH]; intros n pool Hin; simpl.
  - by apply elem_of_nil in Hin.
  - apply elem_of_cons in Hin as [->|Hin]; [|by apply IH].
    apply pred_pool_mono. rewrite !lookup_insert_is_Some'. auto.
Qed.

(** A head name that denotes the shared head keeps denoting it. *)
Lemma pred_pool_head_kept (shared : loc) (l : list string) (n : loc)
    (pool : gmap string loc) (s : string) :
  pool !! pred_head_module_name_of base_task s = Some shared →
  pred_pool base_task shared n l pool
  !! pred_head_module_name_of base_task s = Some shared.
Proof.
  revert n pool. induction l as [|s0 l IH]; intros n pool Hk; simpl; [done|].
  apply IH.
  destruct (decide (pred_head_module_name_of base_task s0
                    = pred_head_module_name_of base_task s)) as [->|Hne].
  - by rewrite lookup_insert_eq.
  - rewrite lookup_insert_ne by done.
    rewrite lookup_insert_ne; [done|].
    intros H. symmetry in H. by apply pred_head_transform_name_ne in H.
Qed.

(** Every predictor head name denotes the shared head module. *)
Lemma pred_pool_head (shared : loc) (l : list string) (n : loc)
    (pool : gmap string loc) (s : string) :
  s ∈ l →
  pred_pool base_task shared n l pool
  !! pred_head_module_name_of base_task s = Some shared.
Proof.
  revert n pool. induction l as [|s0 l IH]; intros n pool Hin; simpl.
  - by apply elem_of_nil in Hin.
  - apply elem_of_cons in Hin as [->|Hin]; [|by apply IH].
    apply pred_pool_head_kept. by rewrite lookup_insert_eq.
Qed.

End Pools.

(** ** List objects are never written *)

Section KeepsLists.

Context {A B : Type}.

Lemma keeps_ret (a : A) : keeps_lists (mret a : M A).
Proof. by intros h r l H. Qed.

Lemma keeps_raise (e : exn) : keeps_lists (raise e : M A).
Proof. by intros h r l H. Qed.

Lemma keeps_expect (e : exn) (o : option A) : keeps_lists (expect e o).
Proof. destruct o; [apply keeps_ret | apply keeps_raise]. Qed.

Lemma keeps_bind (m : M A) (k : A → M B) :
  keeps_lists m → (∀ a, keeps_lists (k a)) → keeps_lists (m ≫= k).
Proof.
  intros Hm Hk h r l H. unfold mbind, M_bind.
  specialize (Hm h r l H). destruct (m h) as [[a|e] h']; simpl in *.
  - by apply Hk.
  - done.
Qed.

Lemma keeps_same (m : M A) :
  (∀ h, list_objs (m h).2 = list_objs h) → keeps_lists m.
Proof. intros Hm h r l H. by rewrite Hm. Qed.

End KeepsLists.

Lemma keeps_read_list (r : loc) : keeps_lists (read_list r).
Proof. apply keeps_same. intros h. unfold read_list. by destruct (_ !! _). Qed.

Lemma keeps_new_list (l : list string) : keeps_lists (new_list l).
Proof. intros h r l' H. simpl. by apply lookup_app_l_Some. Qed.

Lemma keeps_read_module (r : loc) : keeps_lists (read_module r).
Proof.
  apply keeps_same. intros h. unfold read_module. by destruct (_ !! _).
Qed.

Lemma keeps_new_module (m : module) : keeps_lists (new_module m).
Proof. by apply keeps_same. Qed.

Lemma keeps_read_pool (r : loc) : keeps_lists (read_pool r).
Proof. apply keeps_same. intros h. unfold read_pool. by destruct (_ !! _). Qed.

Lemma keeps_write_pool (r : loc) (p : gmap string loc) :
  keeps_lists (write_pool r p).
Proof. by apply keeps_same. Qed.

Lemma keeps_new_empty_pool : keeps_lists new_empty_pool.
Proof. by apply keeps_same. Qed.

Lemma keeps_read_Y_dict (r : loc) : keeps_lists (read_Y_dict r).
Proof.
  apply keeps_same. intros h. unfold read_Y_dict. by destruct (_ !! _).
Qed.

Lemma keeps_write_Y_dict (r : loc) (d : gmap string tensor) :
  keeps_lists (write_Y_dict r d).
Proof. by apply keeps_same. Qed.

Lemma keeps_assert (b : bool) : keeps_lists (assert b).
Proof. destruct b; [apply keeps_ret | apply keeps_raise]. Qed.

Create HintDb keeps.
#[local] Hint Resolve keeps_read_list keeps_new_list keeps_read_module
  keeps_new_module keeps_read_pool keeps_write_pool keeps_new_empty_pool
  keeps_read_Y_dict keeps_write_Y_dict keeps_assert : keeps.

Lemma keeps_for_each {A} (l : list A) (body : A → M unit) :
  (∀ x, keeps_lists (body x)) → keeps_lists (for_each l body).
Proof.
  intros Hbody. induction l as [|x l IH]; simpl; [apply keeps_ret|].
  apply keeps_bind; [apply Hbody | by intros _].
Qed.

Lemma keeps_for_fold {A S} (l : list A) (body : S → A → M S) (s : S) :
  (∀ s x, keeps_lists (body s x)) → keeps_lists (for_fold l body s).
Proof.
  intros Hbody. revert s. induction l as [|x l IH]; intros s; simpl;
    [apply keeps_ret|].
  apply keeps_bind; [apply Hbody | by intros s'].
Qed.

(** Decompose a computation into its loops and binds and conclude by the
    primitives. *)
Ltac keeps_step :=
  first
    [ apply keeps_for_each; intros ?
    | apply keeps_for_fold; intros ? ?
    | apply keeps_bind; [|intros ?]
    | apply keeps_ret
    | apply keeps_raise
    | apply keeps_expect
    | solve [auto with keeps]
    | match goal with
      | |- keeps_lists (match ?x with _ => _ end) => destruct x
      | |- keeps_lists (if ?b then _ else _) => destruct b
      end
    | progress unfold add_slice_labels_body, ind_task_body, pred_task_body,
        tensor_mul, Y_getitem, Y_setitem, pool_getitem, pool_setitem,
        pool_delitem, ModuleDict, add_module_check ].

Section KeepsUtils.

Variable convert_labels : tensor → tensor.
Variable operation_name : string → string.

Lemma keeps_add_base_slice (a : ndarray) (r : loc) :
  keeps_lists (_add_base_slice a r).
Proof. unfold _add_base_slice. repeat keeps_step. Qed.

Lemma keeps_add_slice_labels (dataloader : loc) (base_task : Task)
    (slice_labels : ndarray) (slice_names : loc) :
  keeps_lists
    (add_slice_labels convert_labels dataloader base_task slice_labels
       slice_names).
Proof.
  unfold add_slice_labels.
  apply keeps_bind; [apply keeps_add_base_slice|]. intros [a r].
  repeat keeps_step.
Qed.

Lemma keeps_convert_to_slice_tasks (base_task : Task) (slice_names : loc) :
  keeps_lists (convert_to_slice_tasks operation_name base_task slice_names).
Proof. unfold convert_to_slice_tasks. repeat keeps_step. Qed.

End KeepsUtils.

(** ** Shapes after normalization *)

Lemma normal_shape (names : list string) (a : ndarray) :
  length names = num_slices a →
  num_slices (normal_labels names a) = length (normal_names names).
Proof.
  intros H. unfold normal_labels, normal_names. case_bool_decide; simpl.
  - done.
  - rewrite length_app. simpl. lia.
Qed.

Lemma normal_num_points (names : list string) (a : ndarray) :
  num_points (normal_labels names a) = num_points a.
Proof. unfold normal_labels. by case_bool_decide. Qed.

Lemma count_name_normal (names : list string) :
  count_name "base" (normal_names names)
  = (count_name "base" names
     + if bool_decide ("base" ∈ names) then 0 else 1)%nat.
Proof.
  unfold normal_names. case_bool_decide; [lia|].
  by rewrite count_name_app.
Qed.

(** * The label materializer *)

(** C2.  Base-slice normalization, for slice names with one name per column
    in which "base" is not repeated (in particular for unique names):
    [_add_base_slice] returns, and the name list it returns contains "base"
    exactly once; its length is the column count of the input plus 1 when
    "base" was absent and plus 0 otherwise; "base" is added at most once,
    and the array gets as many columns as there are names. *)
Theorem add_base_slice_base_once (h : heap) (slice_labels : ndarray)
    (slice_names : loc) (names : list string)
    (Hnames : list_objs h !! slice_names = Some names)
    (Hcols : length names = num_slices slice_labels)
    (Honce : (count_name "base" names ≤ 1)%nat) :
  ∃ slice_labels' slice_names' names' h',
    _add_base_slice slice_labels slice_names h
    = (Ok (slice_labels', slice_names'), h') ∧
    list_objs h' !! slice_names' = Some names' ∧
    count_name "base" names' = 1%nat ∧
    length names'
    = (num_slices slice_labels
       + if bool_decide ("base" ∈ names) then 0 else 1)%nat ∧
    count_name "base" names'
    = (count_name "base" names
       + if bool_decide ("base" ∈ names) then 0 else 1)%nat ∧
    num_slices slice_labels' = length names'.
Proof.
  destruct (add_base_slice_run h slice_labels slice_names names Hnames)
    as (r' & h' & Hrun & Hr' & _).
  exists (normal_labels names slice_labels), r', (normal_names names), h'.
  split; [done|]. split; [done|].
  pose proof (count_name_normal names) as Hcount.
  split; [|split; [|split; [done | by apply normal_shape]]].
  - rewrite Hcount. case_bool_decide as Hb.
    + destruct (count_name "base" names) eqn:E; [|lia].
      by apply count_name_zero in E.
    + apply count_name_zero in Hb. lia.
  - rewrite <- Hcols. unfold normal_names. case_bool_decide; [lia|].
    rewrite length_app. simpl. lia.
Qed.

Lemma add_base_slice_base_once_witness :
  ∃ slice_labels' slice_names' names' h',
    _add_base_slice Example.slice_labels 0%nat Example.h
    = (Ok (slice_labels', slice_names'), h') ∧
    list_objs h' !! slice_names' = Some names' ∧
    count_name "base" names' = 1%nat ∧
    length names'
    = (num_slices Example.slice_labels
       + if bool_decide ("base" ∈ ["rare"]) then 0 else 1)%nat ∧
    count_name "base" names'
    = (count_name "base" ["rare"]
       + if bool_decide ("base" ∈ ["rare"]) then 0 else 1)%nat ∧
    num_slices slice_labels' = length names'.
Proof.
  apply (add_base_slice_base_once Example.h Example.slice_labels 0%nat
           ["rare"]).
  - reflexivity.
  - reflexivity.
  - vm_compute. lia.
Defined.

(** C1.  For base labels that are 64-bit integers, one per example, and one
    slice name per column, [add_slice_labels] returns and registers, for
    every slice name [s] after normalization, the elementwise product of
    the membership column of [s] and the base labels: the entry is 0 where
    the membership is 0 and the base label where the membership is 1.  The
    column of [s] is the last one that carries this name, which is the only
    one when the names are unique. *)
Theorem pred_labels_are_masked_base_labels (convert_labels : tensor → tensor)
    (h : heap) (dataloader : loc) (base_task : Task)
    (slice_labels : ndarray) (slice_names : loc) (names : list string)
    (Y : gmap string tensor) (labels : tensor)
    (Hnames : list_objs h !! slice_names = Some names)
    (HY : Y_dicts h !! dataloader = Some Y)
    (Hcols : length names = num_slices slice_labels)
    (Hlabels : Y !! name base_task = Some labels)
    (Hsize : length labels = num_points slice_labels)
    (Hint : Forall int64 labels) :
  ∃ h' Y',
    add_slice_labels convert_labels dataloader base_task slice_labels
      slice_names h = (Ok tt, h') ∧
    Y_dicts h' !! dataloader = Some Y' ∧
    ∀ (i : nat) (s : string),
      normal_names names !! i = Some s →
      (∀ j, (i < j)%nat → normal_names names !! j ≠ Some s) →
      ∃ pred_labels,
        Y' !! pred_task_name_of (name base_task) s = Some pred_labels ∧
        length pred_labels = num_points slice_labels ∧
        ∀ (e : nat) (y : Z),
          labels !! e = Some y →
          let membership := item (normal_labels names slice_labels) e i in
          pred_labels !! e = Some (mul64 membership y) ∧
          (membership = 0 → pred_labels !! e = Some 0) ∧
          (membership = 1 → pred_labels !! e = Some y).
Proof.
  destruct (add_slice_labels_cases convert_labels h dataloader base_task
              slice_labels slice_names names Y Hnames HY)
    as (h1 & Hrun & _ & _ & _ & HYs).
  unfold add_slice_labels_outcome in Hrun.
  rewrite (normal_shape _ _ Hcols), Nat.eqb_refl, Hlabels in Hrun.
  assert (∀ i, broadcast_mul (column (normal_labels names slice_labels) i)
                 labels
               = Some (zip_with mul64
                         (column (normal_labels names slice_labels) i)
                         labels)) as Hmul.
  { intros i. apply broadcast_mul_same_size.
    by rewrite length_column, normal_num_points. }
  rewrite Hmul in Hrun.
  eexists _, _. split; [exact Hrun|].
  split; [eapply lookup_set_Y_dict; by rewrite HYs|].
  intros i s Hi Hlast.
  eexists. split.
  { apply (entries_last _ _ _ _ _ _ i i s).
    - by rewrite lookup_enumerate, Hi.
    - intros j' i' Hlt Hj'. rewrite lookup_enumerate in Hj'.
      destruct (normal_names names !! j') as [s'|] eqn:E; [|done].
      simpl in Hj'. injection Hj' as <- <-. by apply (Hlast j'). }
  rewrite Hmul. simpl.
  split.
  { rewrite length_zip_with, length_column, normal_num_points. lia. }
  intros e y He.
  set (membership := item (normal_labels names slice_labels) e i).
  assert (zip_with mul64 (column (normal_labels names slice_labels) i) labels
          !! e = Some (mul64 membership y)) as Hprod.
  { rewrite lookup_zip_with, lookup_column, He; [done|].
    rewrite normal_num_points, <- Hsize. by eapply lookup_lt_Some. }
  split; [done|]. split.
  - intros Hm. by rewrite Hprod, Hm, mul64_0_l.
  - intros Hm. rewrite Hprod, Hm, mul64_1_l; [done|].
    eapply Forall_lookup_1; eauto.
Qed.

Lemma pred_labels_are_masked_base_labels_witness :
  ∃ h' Y',
    add_slice_labels Example.convert_labels 0%nat Example.base_task
      Example.slice_labels 0%nat Example.h = (Ok tt, h') ∧
    Y_dicts h' !! 0%nat = Some Y' ∧
    ∀ (i : nat) (s : string),
      normal_names ["rare"] !! i = Some s →
      (∀ j, (i < j)%nat → normal_names ["rare"] !! j ≠ Some s) →
      ∃ pred_labels,
        Y' !! pred_task_name_of (name Example.base_task) s
        = Some pred_labels ∧
        length pred_labels = num_points Example.slice_labels ∧
        ∀ (e : nat) (y : Z),
          [1; 2; 1] !! e = Some y →
          let membership :=
            item (normal_labels ["rare"] Example.slice_labels) e i in
          pred_labels !! e = Some (mul64 membership y) ∧
          (membership = 0 → pred_labels !! e = Some 0) ∧
          (membership = 1 → pred_labels !! e = Some y).
Proof.
  apply (pred_labels_are_masked_base_labels Example.convert_labels Example.h
           0%nat Example.base_task Example.slice_labels 0%nat ["rare"]
           {[ "T" := [1; 2; 1] ]} [1; 2; 1]).
  - reflexivity.
  - reflexivity.
  - reflexivity.
  - reflexivity.
  - reflexivity.
  - repeat constructor; unfold int64; lia.
Defined.

(** C8.  [add_slice_labels] raises its assertion exactly when the column
    count of the slice labels differs from the number of slice names after
    normalization, and it does not return when they differ; whenever it
    fails, the label dictionaries are as they were, because the first write
    comes after every check.  With the base labels of the contract, one per
    example, the assertion is the only way to fail. *)
Theorem add_slice_labels_fails_iff_shape_mismatch
    (convert_labels : tensor → tensor) (h : heap) (dataloader : loc)
    (base_task : Task) (slice_labels : ndarray) (slice_names : loc)
    (names : list string) (Y : gmap string tensor)
    (Hnames : list_objs h !! slice_names = Some names)
    (HY : Y_dicts h !! dataloader = Some Y) :
  let run :=
    add_slice_labels convert_labels dataloader base_task slice_labels
      slice_names h in
  let mismatch :=
    num_slices (normal_labels names slice_labels)
    ≠ length (normal_names names) in
  (run.1 = Raise AssertionError ↔ mismatch) ∧
  (run.1 = Ok tt → ¬ mismatch) ∧
  (∀ e, run.1 = Raise e → Y_dicts run.2 = Y_dicts h) ∧
  (∀ labels,
     Y !! name base_task = Some labels →
     length labels = num_points slice_labels →
     (run.1 ≠ Ok tt ↔ mismatch)).
Proof.
  intros run mismatch. subst run mismatch.
  destruct (add_slice_labels_cases convert_labels h dataloader base_task
              slice_labels slice_names names Y Hnames HY)
    as (h1 & -> & _ & _ & _ & HYs).
  unfold add_slice_labels_outcome.
  destruct (Nat.eqb_spec (num_slices (normal_labels names slice_labels))
              (length (normal_names names))) as [Heq|Hne]; simpl.
  - destruct (Y !! name base_task) as [labels|] eqn:Hlabels; simpl.
    + destruct (broadcast_mul _ labels) as [p|] eqn:Hmul; simpl.
      * split; [split; [done | intros []; done]|].
        split; [by intros _ ?|]. split; [done|].
        intros labels' _ _. split; [done | intros []; done].
      * split; [split; [done | intros []; done]|].
        split; [done|]. split; [done|].
        intros labels' [= <-] Hsize.
        rewrite broadcast_mul_same_size in Hmul; [done|].
        by rewrite length_column, normal_num_points.
    + split; [split; [done | intros []; done]|].
      split; [done|]. split; [done|]. by intros labels' ?.
  - split; [done|]. split; [done|]. split; [done|].
    by intros labels' _ _.
Qed.

Lemma add_slice_labels_fails_iff_shape_mismatch_witness :
  let run :=
    add_slice_labels Example.convert_labels 0%nat Example.base_task
      Example.slice_labels 0%nat Example.h in
  let mismatch :=
    num_slices (normal_labels ["rare"] Example.slice_labels)
    ≠ length (normal_names ["rare"]) in
  (run.1 = Raise AssertionError ↔ mismatch) ∧
  (run.1 = Ok tt → ¬ mismatch) ∧
  (∀ e, run.1 = Raise e → Y_dicts run.2 = Y_dicts Example.h) ∧
  (∀ labels,
     ({[ "T" := [1; 2; 1] ]} : gmap string tensor)
     !! name Example.base_task = Some labels →
     length labels = num_points Example.slice_labels →
     (run.1 ≠ Ok tt ↔ mismatch)).
Proof.
  apply (add_slice_labels_fails_iff_shape_mismatch Example.convert_labels
           Example.h 0%nat Example.base_task Example.slice_labels 0%nat
           ["rare"] {[ "T" := [1; 2; 1] ]}).
  - reflexivity.
  - reflexivity.
Defined.

(** C9.  Whatever the outcome of [add_slice_labels], the label dictionary
    of the data loader differs from the one before only at the names
    [{base}_slice:{s}_ind] and [{base}_slice:{s}_pred] of the normalized
    slice names [s]: the entry of the base task is the same, every name
    that had an entry still has one, and the other dictionaries are the
    same; when the function returns, both names of every slice have an
    entry. *)
Theorem add_slice_labels_only_adds_slice_entries
    (convert_labels : tensor → tensor) (h : heap) (dataloader : loc)
    (base_task : Task) (slice_labels : ndarray) (slice_names : loc)
    (names : list string) (Y : gmap string tensor)
    (Hnames : list_objs h !! slice_names = Some names)
    (HY : Y_dicts h !! dataloader = Some Y) :
  let run :=
    add_slice_labels convert_labels dataloader base_task slice_labels
      slice_names h in
  ∃ Y',
    Y_dicts run.2 !! dataloader = Some Y' ∧
    (∀ k,
       (∀ s, s ∈ normal_names names →
             k ≠ ind_task_name_of (name base_task) s ∧
             k ≠ pred_task_name_of (name base_task) s) →
       Y' !! k = Y !! k) ∧
    Y' !! name base_task = Y !! name base_task ∧
    (∀ k, is_Some (Y !! k) → is_Some (Y' !! k)) ∧
    (run.1 = Ok tt →
     ∀ s, s ∈ normal_names names →
          is_Some (Y' !! ind_task_name_of (name base_task) s) ∧
          is_Some (Y' !! pred_task_name_of (name base_task) s)) ∧
    (∀ r, r ≠ dataloader → Y_dicts run.2 !! r = Y_dicts h !! r).
Proof.
  intros run. subst run.
  destruct (add_slice_labels_cases convert_labels h dataloader base_task
              slice_labels slice_names names Y Hnames HY)
    as (h1 & -> & _ & _ & _ & HYs).
  assert (∃ Y', Y_dicts h1 !! dataloader = Some Y' ∧ Y' = Y) as Hsame
    by (exists Y; by rewrite HYs).
  unfold add_slice_labels_outcome.
  destruct (_ =? _)%nat; simpl;
    [destruct (Y !! name base_task) as [labels|] eqn:Hlabels; simpl;
     [destruct (broadcast_mul _ labels) as [p|] eqn:Hmul; simpl|]|];
    try (destruct Hsame as (Y' & HY' & ->); exists Y;
         rewrite ?Hlabels, HYs; by repeat split).
  eexists. split; [eapply lookup_set_Y_dict; by rewrite HYs|].
  split; [|split; [|split; [|split]]].
  - intros k Hk. apply entries_frame.
    intros i s His%enumerate_snd. apply Hk. by eapply list_elem_of_lookup_2.
  - rewrite <- Hlabels. apply entries_frame. intros i s _. split.
    + intros H. symmetry in H. by apply ind_task_name_ne_base in H.
    + intros H. symmetry in H. by apply pred_task_name_ne_base in H.
  - intros k. apply entries_mono.
  - intros _ s [i Hi]%list_elem_of_lookup.
    apply (entries_written _ _ _ _ _ _ i).
    apply (list_elem_of_lookup_2 _ i). by rewrite lookup_enumerate, Hi.
  - intros r Hr. rewrite list_lookup_insert_ne by done. by rewrite HYs.
Qed.

Lemma add_slice_labels_only_adds_slice_entries_witness :
  let run :=
    add_slice_labels Example.convert_labels 0%nat Example.base_task
      Example.slice_labels 0%nat Example.h in
  ∃ Y',
    Y_dicts run.2 !! 0%nat = Some Y' ∧
    (∀ k,
       (∀ s, s ∈ normal_names ["rare"] →
             k ≠ ind_task_name_of (name Example.base_task) s ∧
             k ≠ pred_task_name_of (name Example.base_task) s) →
       Y' !! k = ({[ "T" := [1; 2; 1] ]} : gmap string tensor) !! k) ∧
    Y' !! name Example.base_task
    = ({[ "T" := [1; 2; 1] ]} : gmap string tensor)
      !! name Example.base_task ∧
    (∀ k, is_Some (({[ "T" := [1; 2; 1] ]} : gmap string tensor) !! k) →
          is_Some (Y' !! k)) ∧
    (run.1 = Ok tt →
     ∀ s, s ∈ normal_names ["rare"] →
          is_Some (Y' !! ind_task_name_of (name Example.base_task) s) ∧
          is_Some (Y' !! pred_task_name_of (name Example.base_task) s)) ∧
    (∀ r, r ≠ 0%nat → Y_dicts run.2 !! r = Y_dicts Example.h !! r).
Proof.
  apply (add_slice_labels_only_adds_slice_entries Example.convert_labels
           Example.h 0%nat Example.base_task Example.slice_labels 0%nat
           ["rare"] {[ "T" := [1; 2; 1] ]}).
  - reflexivity.
  - reflexivity.
Defined.

(** * The task graph expander *)

Lemma length_removelast_last {A} (l : list A) (x : A) :
  last l = Some x → length l = S (length (removelast l)).
Proof.
  intros [l' ->]%last_Some.
  rewrite removelast_last, length_app. simpl. lia.
Qed.

Lemma for_fold_app {A S} (l1 l2 : list A) (body : S → A → M S) (s : S)
    (h : heap) :
  for_fold (l1 ++ l2) body s h
  = (for_fold l1 body s ≫= for_fold l2 body) h.
Proof.
  revert s h. induction l1 as [|x l1 IH]; intros s h; simpl; [done|].
  unfold mbind, M_bind. destruct (body s x h) as [[s'|e] h']; [|done].
  apply IH.
Qed.

Section ExpanderFacts.

Variable operation_name : string → string.
Variables (base_task : Task) (head_module_op : Operation).

Lemma length_pred_task_ops (names : list string) :
  length (concat (pred_task_ops_of operation_name base_task head_module_op
                    <$> names))
  = (2 * length names)%nat.
Proof.
  induction names as [|s names IH]; [done|].
  rewrite fmap_cons. cbn [concat]. rewrite length_app, IH. simpl. lia.
Qed.

Lemma length_master_task_flow (names : list string) (mp : loc) (x : Operation) :
  last (task_flow base_task) = Some x →
  length (task_flow (master_task_of operation_name base_task head_module_op
                       names mp))
  = (length (task_flow base_task) - 1 + 3 * length names + 2)%nat.
Proof.
  intros Hlast%length_removelast_last. simpl.
  unfold slice_task_ops_of.
  rewrite !length_app, length_fmap, length_pred_task_ops. simpl. lia.
Qed.

Variable neck_size : nat.
Hypothesis Hbase : has_dot (name base_task) = false.

(** Once the indicator task of [s] is built, its head module is in the
    shared pool of the heap in which the remaining tasks are built. *)
Lemma ind_loop_visible (h0 : heap) (pool0 : gmap string loc)
    (st0 : list Task * list Operation) (done : list string) (s : string)
    (rest : list string) :
  pool_objs h0 !! module_pool base_task = Some pool0 →
  Forall (λ s, has_dot s = false) (done ++ [s]) →
  ∃ st1 h1 pool1,
    for_fold (done ++ [s])
      (ind_task_body operation_name base_task head_module_op
         (removelast (task_flow base_task)) neck_size) st0 h0
    = (Ok st1, h1) ∧
    pool_objs h1 !! module_pool base_task = Some pool1 ∧
    pool1 !! ind_head_module_name_of base_task s
    = Some (length (module_objs h0) + length done)%nat ∧
    for_fold (done ++ s :: rest)
      (ind_task_body operation_name base_task head_module_op
         (removelast (task_flow base_task)) neck_size) st0 h0
    = for_fold rest
        (ind_task_body operation_name base_task head_module_op
           (removelast (task_flow base_task)) neck_size) st1 h1.
Proof.
  intros Hpool Hdots. destruct st0 as [ts ops].
  pose proof (ind_loop_run operation_name base_task head_module_op
                neck_size Hbase (done ++ [s]) h0 pool0 ts ops Hpool Hdots)
    as Hrun.
  eexists _, _, _. split; [exact Hrun|]. split; [|split].
  - simpl. apply list_lookup_insert_eq. by eapply lookup_lt_Some.
  - rewrite ind_pool_app. simpl. by rewrite lookup_insert_eq.
  - rewrite (cons_middle s done rest), (assoc_L (++)), for_fold_app.
    by rewrite (run_bind_ok _ _ _ _ _ Hrun).
Qed.

(** Likewise for the transform module of the predictor task of [s]. *)
Lemma pred_loop_visible (shared : loc) (h0 : heap)
    (pool0 : gmap string loc) (st0 : list Task * list Operation)
    (done : list string) (s : string) (rest : list string) :
  pool_objs h0 !! module_pool base_task = Some pool0 →
  Forall (λ s, has_dot s = false) (done ++ [s]) →
  ∃ st1 h1 pool1,
    for_fold (done ++ [s])
      (pred_task_body operation_name base_task head_module_op
         (removelast (task_flow base_task)) neck_size shared) st0 h0
    = (Ok st1, h1) ∧
    pool_objs h1 !! module_pool base_task = Some pool1 ∧
    pool1 !! pred_transform_module_name_of base_task s
    = Some (length (module_objs h0) + length done)%nat ∧
    pool1 !! pred_head_module_name_of base_task s = Some shared ∧
    for_fold (done ++ s :: rest)
      (pred_task_body operation_name base_task head_module_op
         (removelast (task_flow base_task)) neck_size shared) st0 h0
    = for_fold rest
        (pred_task_body operation_name base_task head_module_op
           (removelast (task_flow base_task)) neck_size shared) st1 h1.
Proof.
  intros Hpool Hdots. destruct st0 as [ts ops].
  pose proof (pred_loop_run operation_name base_task head_module_op
                neck_size Hbase shared (done ++ [s]) h0 pool0 ts ops Hpool
                Hdots)
    as Hrun.
  eexists _, _, _. split; [exact Hrun|]. split; [|split; [|split]].
  - simpl. apply list_lookup_insert_eq. by eapply lookup_lt_Some.
  - rewrite pred_pool_app. simpl.
    rewrite lookup_insert_ne, lookup_insert_eq; [done|].
    apply pred_head_transform_name_ne.
  - rewrite pred_pool_app. simpl. by rewrite lookup_insert_eq.
  - rewrite (cons_middle s done rest), (assoc_L (++)), for_fold_app.
    by rewrite (run_bind_ok _ _ _ _ _ Hrun).
Qed.

End ExpanderFacts.

(** ** The heap after the expander *)

Section ExpandedHeap.

Variables (h : heap) (base_task : Task) (head_module_op : Operation).
Variables (names : list string) (pool : gmap string loc).
Variables (master_head_module : loc) (neck_size cardinality : nat).
Hypothesis Hpool : pool_objs h !! module_pool base_task = Some pool.

Local Abbreviation h' :=
  (expanded_heap h base_task head_module_op names pool master_head_module
     neck_size cardinality).
Local Abbreviation n0 := (length (module_objs h)).
Local Abbreviation N := (length (normal_names names)).

Lemma expanded_shared_pool :
  pool_objs h' !! module_pool base_task
  = Some (pred_pool base_task (n0 + N) (n0 + N + 1) (normal_names names)
            (ind_pool base_task n0 (normal_names names)
               (delete (module_name head_module_op) pool))).
Proof.
  simpl. apply lookup_app_l_Some, list_lookup_insert_eq.
  by eapply lookup_lt_Some.
Qed.

Lemma expanded_master_pool :
  pool_objs h' !! length (pool_objs h)
  = Some (master_pool base_task (n0 + N + 1 + N) master_head_module).
Proof.
  simpl. rewrite lookup_app_r; rewrite length_insert; [|done].
  by rewrite Nat.sub_diag.
Qed.

Lemma expanded_old_module (r : loc) (m : module) :
  module_objs h !! r = Some m → module_objs h' !! r = Some m.
Proof. intros H. simpl. by apply lookup_app_l_Some. Qed.

Lemma expanded_shared_head :
  module_objs h' !! (n0 + N)%nat = Some (Linear neck_size cardinality).
Proof.
  simpl. rewrite lookup_app_r by lia.
  rewrite lookup_app_r; rewrite length_replicate; [|lia].
  by replace (n0 + N - n0 - N)%nat with 0%nat by lia.
Qed.

Lemma expanded_combiner :
  module_objs h' !! (n0 + N + 1 + N)%nat = Some SliceCombinerModule.
Proof.
  unfold expanded_heap. cbn [module_objs]. rewrite lookup_app_r by lia.
  rewrite lookup_app_r; rewrite length_replicate; [|lia].
  rewrite (lookup_app_r [_]); simpl length; [|lia].
  rewrite lookup_app_r; rewrite length_replicate; [|lia].
  by replace (n0 + N + 1 + N - n0 - N - 1 - N)%nat with 0%nat by lia.
Qed.

End ExpandedHeap.

(** ** What the expander returns *)

Section ExpanderClaims.

Variable operation_name : string → string.
Variables (h : heap) (base_task : Task) (slice_names : loc).
Variables (names : list string) (head_module_op : Operation).
Variables (pool : gmap string loc) (head_module : loc).
Variables (head_module_obj : module) (neck_size cardinality : nat).
Hypothesis Hnames : list_objs h !! slice_names = Some names.
Hypothesis Hflow : last (task_flow base_task) = Some head_module_op.
Hypothesis Hpool : pool_objs h !! module_pool base_task = Some pool.
Hypothesis Hhead : pool !! module_name head_module_op = Some head_module.
Hypothesis Hobj : module_objs h !! head_module = Some head_module_obj.
Hypothesis Hlinear :
  module_objs h !! unwrapped head_module_obj head_module
  = Some (Linear neck_size cardinality).
Hypothesis Hbase : has_dot (name base_task) = false.
Hypothesis Hdots : Forall (λ s, has_dot s = false) names.

Local Abbreviation run :=
  (convert_to_slice_tasks operation_name base_task slice_names h).
Local Abbreviation N := (length (normal_names names)).

(** C4.  For a base task whose last operation names a linear head in its
    pool, and with no "." in the name of the base task or in a slice name
    (the pool refuses a module name with a "."), [convert_to_slice_tasks]
    returns [2 * N + 1] tasks, where [N] is the number of slice names with
    the base slice: the [N] indicator tasks, then the [N] predictor tasks,
    then the master task, the tasks of each group in the order of the
    slice names. *)
Theorem slice_tasks_order :
  ∃ ind_tasks pred_tasks master_task h',
    run = (Ok (ind_tasks ++ pred_tasks ++ [master_task]), h') ∧
    length (ind_tasks ++ pred_tasks ++ [master_task]) = (2 * N + 1)%nat ∧
    ind_tasks
    = (ind_task_of operation_name base_task head_module_op
         <$> normal_names names) ∧
    pred_tasks
    = (pred_task_of operation_name base_task head_module_op
         <$> normal_names names) ∧
    master_task
    = master_task_of operation_name base_task head_module_op
        (normal_names names) (length (pool_objs h)) ∧
    name <$> ind_tasks
    = (ind_task_name_of (name base_task) <$> normal_names names) ∧
    name <$> pred_tasks
    = (pred_task_name_of (name base_task) <$> normal_names names) ∧
    name master_task = name base_task.
Proof.
  eexists _, _, _, _.
  split; [by eapply convert_to_slice_tasks_run|].
  split; [rewrite !length_app, !length_fmap; simpl; lia|].
  do 3 (split; [reflexivity|]).
  split; [|split; [|done]]; by rewrite <- list_fmap_compose.
Qed.

(** C3, amended.  For a base task with a linear head and no "." in its
    name or in a slice name, the call returns, and with a base task flow
    of length [L], every indicator task has a flow of length [L], every
    predictor task a flow of length [L + 1], and the master task a flow of
    length [(L - 1) + 3 * N + 2]: the body, one operation per indicator,
    two per predictor, the combiner and the head. *)
Theorem slice_task_flow_lengths :
  ∃ ind_tasks pred_tasks master_task h',
    run = (Ok (ind_tasks ++ pred_tasks ++ [master_task]), h') ∧
    length ind_tasks = N ∧ length pred_tasks = N ∧
    let L := length (task_flow base_task) in
    Forall (λ t, length (task_flow t) = L) ind_tasks ∧
    Forall (λ t, length (task_flow t) = (L + 1)%nat) pred_tasks ∧
    length (task_flow master_task) = (L - 1 + 3 * N + 2)%nat.
Proof.
  eexists _, _, _, _.
  split; [by eapply convert_to_slice_tasks_run|].
  rewrite !length_fmap. do 2 (split; [done|]).
  pose proof (length_removelast_last _ _ Hflow) as HL.
  split; [|split].
  - apply Forall_fmap, Forall_true. intros s. simpl.
    rewrite length_app. simpl. lia.
  - apply Forall_fmap, Forall_true. intros s. simpl.
    rewrite length_app. simpl. lia.
  - by eapply length_master_task_flow.
Qed.

(** C5.  For a base task with a linear head and no "." in its name or in
    a slice name, the call returns and has created one module object for
    the head of the predictors, between the indicator heads and the
    transforms, and the head operation of every predictor task denotes
    this very object in the pool of its task. *)
Theorem shared_pred_head_is_one_object :
  ∃ ind_tasks pred_tasks master_task h' shared_pred_head_module,
    run = (Ok (ind_tasks ++ pred_tasks ++ [master_task]), h') ∧
    length pred_tasks = N ∧
    module_objs h'
    = module_objs h ++ replicate N (Linear neck_size 2)
      ++ [Linear neck_size cardinality]
      ++ replicate N (Linear neck_size neck_size)
      ++ [SliceCombinerModule] ∧
    shared_pred_head_module = (length (module_objs h) + N)%nat ∧
    module_objs h !! shared_pred_head_module = None ∧
    module_objs h' !! shared_pred_head_module
    = Some (Linear neck_size cardinality) ∧
    ∀ t, t ∈ pred_tasks →
      ∃ pred_head_op module_pool_t,
        last (task_flow t) = Some pred_head_op ∧
        module_name pred_head_op = name t +:+ "_head" ∧
        pool_objs h' !! module_pool t = Some module_pool_t ∧
        module_pool_t !! module_name pred_head_op
        = Some shared_pred_head_module.
Proof.
  eexists _, _, _, _, _.
  split; [by eapply convert_to_slice_tasks_run|].
  split; [by rewrite length_fmap|].
  split; [reflexivity|]. split; [reflexivity|].
  split; [apply lookup_ge_None; lia|].
  split; [apply expanded_shared_head|].
  intros t [s [-> Hs]]%list_elem_of_fmap.
  eexists _, _. split; [|split; [|split]].
  - simpl. by rewrite last_app.
  - reflexivity.
  - exact (expanded_shared_pool h base_task head_module_op names pool _
             neck_size cardinality Hpool).
  - by apply pred_pool_head.
Qed.

(** C6, amended.  For a base task with a linear head and no "." in its
    name or in a slice name, the call returns, and the pool of the master
    task is a new pool with exactly two entries, the new combiner module
    and the head module of the base task; the head module is the object
    the base task had, not a new one, and when it was under a replication
    wrapper it is the module inside the wrapper that is entered, not the
    wrapper. *)
Theorem master_pool_is_combiner_and_head :
  ∃ ind_tasks pred_tasks master_task h' master_module_pool
    master_combiner_module,
    run = (Ok (ind_tasks ++ pred_tasks ++ [master_task]), h') ∧
    pool_objs h !! module_pool master_task = None ∧
    pool_objs h' !! module_pool master_task = Some master_module_pool ∧
    size master_module_pool = 2%nat ∧
    (∀ k, is_Some (master_module_pool !! k) ↔
          k = name base_task +:+ "_master_combiner" ∨
          k = name base_task +:+ "_master_head") ∧
    master_module_pool !! (name base_task +:+ "_master_combiner")
    = Some master_combiner_module ∧
    module_objs h !! master_combiner_module = None ∧
    module_objs h' !! master_combiner_module = Some SliceCombinerModule ∧
    master_module_pool !! (name base_task +:+ "_master_head")
    = Some (unwrapped head_module_obj head_module) ∧
    module_objs h' !! unwrapped head_module_obj head_module
    = module_objs h !! unwrapped head_module_obj head_module ∧
    ((∀ inner, head_module_obj ≠ DataParallel inner) →
     unwrapped head_module_obj head_module = head_module) ∧
    (∀ inner, head_module_obj = DataParallel inner →
     unwrapped head_module_obj head_module = inner).
Proof.
  eexists _, _, _, _, _, _.
  split; [by eapply convert_to_slice_tasks_run|].
  split; [by apply lookup_ge_None|].
  split; [apply expanded_master_pool|].
  pose proof (master_names_ne (name base_task)) as Hne.
  split; [|split; [|split; [|split; [|split; [|split; [|split; [|split]]]]]]].
  - unfold master_pool.
    rewrite map_size_insert_None, map_size_insert_None, map_size_empty;
      [done | done |].
    by rewrite lookup_insert_ne.
  - intros k. unfold master_pool.
    rewrite !lookup_insert_is_Some', lookup_empty. split.
    + intros [ <- | [ <- | [x Hx] ] ]; [by right | by left | done].
    + intros [ -> | -> ]; auto.
  - unfold master_pool. by rewrite lookup_insert_ne, lookup_insert_eq.
  - apply lookup_ge_None. lia.
  - apply expanded_combiner.
  - unfold master_pool. by rewrite lookup_insert_eq.
  - rewrite Hlinear. by apply expanded_old_module.
  - intros Hnot. destruct head_module_obj; try done. by destruct (Hnot inner).
  - by intros inner ->.
Qed.

(** C7, amended.  For a base task with a linear head and no "." in its
    name or in a slice name, the call returns; every indicator task and
    every predictor task holds the reference of the pool of the base
    task, and the master task holds a new pool.  A module entered while
    one task is built (under a name without ".") is in the shared
    pool when the next task is built, in both loops, and in the end the
    shared pool has the indicator head, the transform and the predictor
    head of every slice, whichever task looks, and still has the body
    modules. *)
Theorem slice_tasks_share_the_pool :
  ∃ ind_tasks pred_tasks master_task h' shared_pool,
    run = (Ok (ind_tasks ++ pred_tasks ++ [master_task]), h') ∧
    length ind_tasks = N ∧ length pred_tasks = N ∧
    Forall (λ t, module_pool t = module_pool base_task)
      (ind_tasks ++ pred_tasks) ∧
    module_pool master_task ≠ module_pool base_task ∧
    pool_objs h !! module_pool master_task = None ∧
    pool_objs h' !! module_pool base_task = Some shared_pool ∧
    (∀ s, s ∈ normal_names names →
       is_Some (shared_pool !! ind_head_module_name_of base_task s) ∧
       is_Some (shared_pool !! pred_transform_module_name_of base_task s) ∧
       is_Some (shared_pool !! pred_head_module_name_of base_task s)) ∧
    (∀ k, k ≠ module_name head_module_op →
          is_Some (pool !! k) → is_Some (shared_pool !! k)) ∧
    visible_to_next_task
      (ind_task_body operation_name base_task head_module_op
         (removelast (task_flow base_task)) neck_size)
      (module_pool base_task) (ind_head_module_name_of base_task) ∧
    visible_to_next_task
      (pred_task_body operation_name base_task head_module_op
         (removelast (task_flow base_task)) neck_size
         (length (module_objs h) + N))
      (module_pool base_task) (pred_transform_module_name_of base_task).
Proof.
  eexists _, _, _, _, _.
  split; [by eapply convert_to_slice_tasks_run|].
  rewrite !length_fmap. do 2 (split; [done|]).
  split; [apply Forall_app; split; by apply Forall_fmap, Forall_true|].
  split; [simpl; apply lookup_lt_Some in Hpool; lia|].
  split; [by apply lookup_ge_None|].
  split; [by apply expanded_shared_pool|].
  split; [|split; [|split]].
  - intros s Hs. split; [|split].
    + by apply pred_pool_mono, ind_pool_written.
    + by apply pred_pool_written.
    + rewrite pred_pool_head; [eauto | done].
  - intros k Hk Hsome. apply pred_pool_mono, ind_pool_mono.
    by rewrite lookup_delete_is_Some.
  - intros h0 pool0 st0 done s rest Hpool0 Hdots0.
    destruct (ind_loop_visible operation_name base_task head_module_op
                neck_size Hbase h0 pool0 st0 done s rest Hpool0 Hdots0)
      as (st1 & h1 & pool1 & Hrun & Hpool1 & Hkey & Hrest).
    exists st1, h1, pool1. rewrite Hkey. eauto.
  - intros h0 pool0 st0 done s rest Hpool0 Hdots0.
    destruct (pred_loop_visible operation_name base_task head_module_op
                neck_size Hbase (length (module_objs h) + N) h0 pool0 st0
                done s rest Hpool0 Hdots0)
      as (st1 & h1 & pool1 & Hrun & Hpool1 & Hkey & _ & Hrest).
    exists st1, h1, pool1. rewrite Hkey. eauto.
Qed.

End ExpanderClaims.

(** ** The example, expanded *)

Lemma slice_tasks_order_witness :
  ∃ ind_tasks pred_tasks master_task h',
    convert_to_slice_tasks Example.operation_name Example.base_task 0%nat
      Example.h
    = (Ok (ind_tasks ++ pred_tasks ++ [master_task]), h') ∧
    length (ind_tasks ++ pred_tasks ++ [master_task])
    = (2 * length (normal_names ["rare"]) + 1)%nat ∧
    ind_tasks
    = (ind_task_of Example.operation_name Example.base_task
         (mkOperation "H" "H" [OpOutput "B" 0])
         <$> normal_names ["rare"]) ∧
    pred_tasks
    = (pred_task_of Example.operation_name Example.base_task
         (mkOperation "H" "H" [OpOutput "B" 0])
         <$> normal_names ["rare"]) ∧
    master_task
    = master_task_of Example.operation_name Example.base_task
        (mkOperation "H" "H" [OpOutput "B" 0])
        (normal_names ["rare"]) (length (pool_objs Example.h)) ∧
    name <$> ind_tasks
    = (ind_task_name_of (name Example.base_task) <$> normal_names ["rare"]) ∧
    name <$> pred_tasks
    = (pred_task_name_of (name Example.base_task) <$> normal_names ["rare"]) ∧
    name master_task = name Example.base_task.
Proof.
  apply (slice_tasks_order Example.operation_name Example.h
           Example.base_task 0%nat ["rare"]
           (mkOperation "H" "H" [OpOutput "B" 0])
           {[ "B" := 0%nat; "H" := 1%nat ]} 1%nat (Linear 8 3) 8%nat 3%nat);
    first [reflexivity | by repeat constructor].
Defined.

Lemma slice_task_flow_lengths_witness :
  ∃ ind_tasks pred_tasks master_task h',
    convert_to_slice_tasks Example.operation_name Example.base_task 0%nat
      Example.h
    = (Ok (ind_tasks ++ pred_tasks ++ [master_task]), h') ∧
    length ind_tasks = length (normal_names ["rare"]) ∧
    length pred_tasks = length (normal_names ["rare"]) ∧
    let L := length (task_flow Example.base_task) in
    Forall (λ t, length (task_flow t) = L) ind_tasks ∧
    Forall (λ t, length (task_flow t) = (L + 1)%nat) pred_tasks ∧
    length (task_flow master_task)
    = (L - 1 + 3 * length (normal_names ["rare"]) + 2)%nat.
Proof.
  apply (slice_task_flow_lengths Example.operation_name Example.h
           Example.base_task 0%nat ["rare"]
           (mkOperation "H" "H" [OpOutput "B" 0])
           {[ "B" := 0%nat; "H" := 1%nat ]} 1%nat (Linear 8 3) 8%nat 3%nat);
    first [reflexivity | by repeat constructor].
Defined.

(** C3, as stated, fails on the example: with a flow of length 2 and the
    two slices "rare" and "base", the flow of the master task has 9
    operations, not [(2 - 1) + 2 * 2 + 2 = 7]. *)
Lemma master_flow_length_counterexample :
  ∃ tasks master_task h',
    convert_to_slice_tasks Example.operation_name Example.base_task 0%nat
      Example.h
    = (Ok tasks, h') ∧
    last tasks = Some master_task ∧
    length (task_flow master_task) = 9%nat ∧
    length (task_flow master_task)
    ≠ (length (task_flow Example.base_task) - 1
       + 2 * length (normal_names ["rare"]) + 2)%nat.
Proof.
  eexists _, _, _. split; [vm_compute; reflexivity|].
  split; [reflexivity|]. split; [reflexivity|]. vm_compute. lia.
Qed.

Lemma shared_pred_head_is_one_object_witness :
  ∃ ind_tasks pred_tasks master_task h' shared_pred_head_module,
    convert_to_slice_tasks Example.operation_name Example.base_task 0%nat
      Example.h
    = (Ok (ind_tasks ++ pred_tasks ++ [master_task]), h') ∧
    length pred_tasks = length (normal_names ["rare"]) ∧
    module_objs h'
    = module_objs Example.h
      ++ replicate (length (normal_names ["rare"])) (Linear 8 2)
      ++ [Linear 8 3]
      ++ replicate (length (normal_names ["rare"])) (Linear 8 8)
      ++ [SliceCombinerModule] ∧
    shared_pred_head_module
    = (length (module_objs Example.h) + length (normal_names ["rare"]))%nat ∧
    module_objs Example.h !! shared_pred_head_module = None ∧
    module_objs h' !! shared_pred_head_module = Some (Linear 8 3) ∧
    ∀ t, t ∈ pred_tasks →
      ∃ pred_head_op module_pool_t,
        last (task_flow t) = Some pred_head_op ∧
        module_name pred_head_op = name t +:+ "_head" ∧
        pool_objs h' !! module_pool t = Some module_pool_t ∧
        module_pool_t !! module_name pred_head_op
        = Some shared_pred_head_module.
Proof.
  apply (shared_pred_head_is_one_object Example.operation_name Example.h
           Example.base_task 0%nat ["rare"]
           (mkOperation "H" "H" [OpOutput "B" 0])
           {[ "B" := 0%nat; "H" := 1%nat ]} 1%nat (Linear 8 3) 8%nat 3%nat);
    first [reflexivity | by repeat constructor].
Defined.

Lemma master_pool_is_combiner_and_head_witness :
  ∃ ind_tasks pred_tasks master_task h' master_module_pool
    master_combiner_module,
    convert_to_slice_tasks Example.operation_name Example.base_task 0%nat
      Example.h_wrapped
    = (Ok (ind_tasks ++ pred_tasks ++ [master_task]), h') ∧
    pool_objs Example.h_wrapped !! module_pool master_task = None ∧
    pool_objs h' !! module_pool master_task = Some master_module_pool ∧
    size master_module_pool = 2%nat ∧
    (∀ k, is_Some (master_module_pool !! k) ↔
          k = name Example.base_task +:+ "_master_combiner" ∨
          k = name Example.base_task +:+ "_master_head") ∧
    master_module_pool !! (name Example.base_task +:+ "_master_combiner")
    = Some master_combiner_module ∧
    module_objs Example.h_wrapped !! master_combiner_module = None ∧
    module_objs h' !! master_combiner_module = Some SliceCombinerModule ∧
    master_module_pool !! (name Example.base_task +:+ "_master_head")
    = Some (unwrapped (DataParallel 1) 2%nat) ∧
    module_objs h' !! unwrapped (DataParallel 1) 2%nat
    = module_objs Example.h_wrapped !! unwrapped (DataParallel 1) 2%nat ∧
    ((∀ inner, DataParallel 1 ≠ DataParallel inner) →
     unwrapped (DataParallel 1) 2%nat = 2%nat) ∧
    (∀ inner, DataParallel 1 = DataParallel inner →
     unwrapped (DataParallel 1) 2%nat = inner).
Proof.
  apply (master_pool_is_combiner_and_head Example.operation_name
           Example.h_wrapped Example.base_task 0%nat ["rare"]
           (mkOperation "H" "H" [OpOutput "B" 0])
           {[ "B" := 0%nat; "H" := 2%nat ]} 2%nat (DataParallel 1) 8%nat
           3%nat);
    first [reflexivity | by repeat constructor].
Defined.

(** C6, as stated, fails on the example with the wrapped head: the pool of
    the base task names the wrapper, object 2, as its head, and the pool of
    the master task names object 1, the linear module inside it; the
    wrapped form is not kept. *)
Lemma master_head_unwrapped_counterexample :
  ∃ tasks master_task h' base_pool master_module_pool original_head
    master_head,
    convert_to_slice_tasks Example.operation_name Example.base_task 0%nat
      Example.h_wrapped
    = (Ok tasks, h') ∧
    last tasks = Some master_task ∧
    pool_objs Example.h_wrapped !! module_pool Example.base_task
    = Some base_pool ∧
    base_pool !! "H" = Some original_head ∧
    module_objs Example.h_wrapped !! original_head = Some (DataParallel 1) ∧
    pool_objs h' !! module_pool master_task = Some master_module_pool ∧
    master_module_pool !! "T_master_head" = Some master_head ∧
    module_objs h' !! master_head = Some (Linear 8 3) ∧
    master_head ≠ original_head.
Proof.
  eexists _, _, _, _, _, _, _. split; [vm_compute; reflexivity|].
  do 7 (split; [reflexivity|]). vm_compute. lia.
Qed.

Lemma slice_tasks_share_the_pool_witness :
  ∃ ind_tasks pred_tasks master_task h' shared_pool,
    convert_to_slice_tasks Example.operation_name Example.base_task 0%nat
      Example.h
    = (Ok (ind_tasks ++ pred_tasks ++ [master_task]), h') ∧
    length ind_tasks = length (normal_names ["rare"]) ∧
    length pred_tasks = length (normal_names ["rare"]) ∧
    Forall (λ t, module_pool t = module_pool Example.base_task)
      (ind_tasks ++ pred_tasks) ∧
    module_pool master_task ≠ module_pool Example.base_task ∧
    pool_objs Example.h !! module_pool master_task = None ∧
    pool_objs h' !! module_pool Example.base_task = Some shared_pool ∧
    (∀ s, s ∈ normal_names ["rare"] →
       is_Some (shared_pool !! ind_head_module_name_of Example.base_task s) ∧
       is_Some (shared_pool
                !! pred_transform_module_name_of Example.base_task s) ∧
       is_Some (shared_pool
                !! pred_head_module_name_of Example.base_task s)) ∧
    (∀ k, k ≠ "H" →
          is_Some
            (({[ "B" := 0%nat; "H" := 1%nat ]} : gmap string loc) !! k) →
          is_Some (shared_pool !! k)) ∧
    visible_to_next_task
      (ind_task_body Example.operation_name Example.base_task
         (mkOperation "H" "H" [OpOutput "B" 0])
         (removelast (task_flow Example.base_task)) 8)
      (module_pool Example.base_task)
      (ind_head_module_name_of Example.base_task) ∧
    visible_to_next_task
      (pred_task_body Example.operation_name Example.base_task
         (mkOperation "H" "H" [OpOutput "B" 0])
         (removelast (task_flow Example.base_task)) 8
         (length (module_objs Example.h) + length (normal_names ["rare"])))
      (module_pool Example.base_task)
      (pred_transform_module_name_of Example.base_task).
Proof.
  apply (slice_tasks_share_the_pool Example.operation_name Example.h
           Example.base_task 0%nat ["rare"]
           (mkOperation "H" "H" [OpOutput "B" 0])
           {[ "B" := 0%nat; "H" := 1%nat ]} 1%nat (Linear 8 3) 8%nat 3%nat);
    first [reflexivity | by repeat constructor].
Defined.

(** C7, as stated, fails on the example: the master task holds pool 1, a
    pool that did not exist before the call, and the base task pool 0. *)
Lemma master_pool_not_shared_counterexample :
  ∃ tasks master_task h',
    convert_to_slice_tasks Example.operation_name Example.base_task 0%nat
      Example.h
    = (Ok tasks, h') ∧
    last tasks = Some master_task ∧
    pool_objs Example.h !! module_pool master_task = None ∧
    module_pool master_task ≠ module_pool Example.base_task.
Proof.
  eexists _, _, _. split; [vm_compute; reflexivity|].
  split; [reflexivity|]. split; [reflexivity|]. vm_compute. lia.
Qed.

(** * The caller's list of slice names *)

(** C10.  Whatever their outcome, [add_slice_labels] and
    [convert_to_slice_tasks] leave the caller's list of slice names with
    the same elements in the same order, and so does [_add_base_slice]:
    when "base" is absent, the normalized names [names ++ ["base"]] are a
    list object that did not exist before. *)
Theorem slice_names_list_not_mutated (convert_labels : tensor → tensor)
    (operation_name : string → string) (h : heap) (dataloader : loc)
    (base_task : Task) (slice_labels : ndarray) (slice_names : loc)
    (names : list string)
    (Hnames : list_objs h !! slice_names = Some names) :
  list_objs
    (add_slice_labels convert_labels dataloader base_task slice_labels
       slice_names h).2 !! slice_names = Some names ∧
  list_objs
    (convert_to_slice_tasks operation_name base_task slice_names h).2
  !! slice_names = Some names ∧
  ∃ slice_labels' slice_names' h',
    _add_base_slice slice_labels slice_names h
    = (Ok (slice_labels', slice_names'), h') ∧
    list_objs h' !! slice_names = Some names ∧
    list_objs h' !! slice_names' = Some (normal_names names) ∧
    ("base" ∉ names →
     normal_names names = names ++ ["base"] ∧
     list_objs h !! slice_names' = None ∧ slice_names' ≠ slice_names).
Proof.
  split; [by apply keeps_add_slice_labels|].
  split; [by apply keeps_convert_to_slice_tasks|].
  unfold _add_base_slice, normal_names.
  rewrite (run_bind_ok _ _ h h names);
    [|unfold read_list; by apply run_expect_some].
  case_bool_decide as Hbase.
  - exists slice_labels, slice_names, h. by rewrite run_ret.
  - eexists _, _, _. split; [reflexivity|]. simpl.
    split; [by apply lookup_app_l_Some|].
    split; [by rewrite lookup_app_r, Nat.sub_diag|].
    intros _. split; [done|]. split; [by apply lookup_ge_None|].
    apply lookup_lt_Some in Hnames. lia.
Qed.

Lemma slice_names_list_not_mutated_witness :
  list_objs
    (add_slice_labels Example.convert_labels 0%nat Example.base_task
       Example.slice_labels 0%nat Example.h).2 !! 0%nat = Some ["rare"] ∧
  list_objs
    (convert_to_slice_tasks Example.operation_name Example.base_task 0%nat
       Example.h).2
  !! 0%nat = Some ["rare"] ∧
  ∃ slice_labels' slice_names' h',
    _add_base_slice Example.slice_labels 0%nat Example.h
    = (Ok (slice_labels', slice_names'), h') ∧
    list_objs h' !! 0%nat = Some ["rare"] ∧
    list_objs h' !! slice_names' = Some (normal_names ["rare"]) ∧
    ("base" ∉ ["rare"] →
     normal_names ["rare"] = ["rare"] ++ ["base"] ∧
     list_objs Example.h !! slice_names' = None ∧ slice_names' ≠ 0%nat).
Proof.
  apply (slice_names_list_not_mutated Example.convert_labels
           Example.operation_name Example.h 0%nat Example.base_task
           Example.slice_labels 0%nat ["rare"]).
  reflexivity.
Defined.


(** * Further properties of the module *)

(** ** The expander, outcome by outcome *)

Section ExpanderCases.

Variable operation_name : string → string.
Variables (h : heap) (base_task : Task) (slice_names : loc).
Variables (names : list string) (pool : gmap string loc).
Hypothesis Hnames : list_objs h !! slice_names = Some names.
Hypothesis Hpool : pool_objs h !! module_pool base_task = Some pool.

Lemma convert_to_slice_tasks_cases :
  convert_to_slice_tasks operation_name base_task slice_names h
  = convert_to_slice_tasks_outcome operation_name h base_task names pool.
Proof.
  unfold convert_to_slice_tasks_outcome.
  destruct (last (task_flow base_task)) as [head_module_op|] eqn:Hflow;
    [destruct (pool !! module_name head_module_op) as [head_module|]
       eqn:Hhead;
     [destruct (module_objs h !! head_module) as [head_module_obj|] eqn:Hobj;
      [destruct (module_objs h !! unwrapped head_module_obj head_module)
         as [m|] eqn:Hlinear|]|]|].
  1: destruct m as [neck_size cardinality| | |];
       [destruct (Nat.eqb_spec (bound_slices base_task names)
                    (length (normal_names names))) as [Hall|Hsome];
        [apply bound_slices_all in Hall as [Hbase Hdots];
         by eapply convert_to_slice_tasks_run
        |eapply convert_to_slice_tasks_refused; eauto;
         pose proof (bound_slices_le base_task names); lia]|..].
  all: unfold convert_to_slice_tasks;
    rewrite (run_bind_ok _ _ h h names);
      [|unfold read_list; by apply run_expect_some];
    destruct (normalize_names_run h slice_names names Hnames)
      as (r' & Hnorm & Hr');
    rewrite (run_bind_ok _ _ _ _ _ Hnorm);
    fold (with_new_name_lists h names).
  all: try (erewrite run_bind_ok; [|by apply run_expect_some]).
  all: try (erewrite run_bind_ok;
            [|unfold pool_getitem; erewrite run_bind_ok;
              [by apply run_expect_some
              |unfold read_pool; by apply run_expect_some]]).
  all: try (erewrite run_bind_ok;
            [|unfold read_module; by apply run_expect_some]).
  all: try (erewrite run_bind_ok;
            [|unfold read_module; apply run_expect_some; exact Hlinear]).
  all: try (erewrite run_bind_raise; [reflexivity|]).
  all: try reflexivity.
  all: try (unfold read_module; apply run_expect_none; simpl; done).
  all: try (unfold pool_getitem; erewrite run_bind_ok;
            [apply run_expect_none; done
            |unfold read_pool; by apply run_expect_some]).
  all: try (apply run_expect_none; done).
Qed.

End ExpanderCases.

(** ** The names of the slice modules *)

Lemma ind_task_name_inj (b s s' : string) :
  ind_task_name_of b s = ind_task_name_of b s' → s = s'.
Proof.
  unfold ind_task_name_of. intros H.
  do 2 apply String.app_inj in H.
  by destruct (Str.app_inj_suffix _ _ _ _ eq_refl H).
Qed.

Section ModuleNames.

Variable base_task : Task.

Lemma ind_head_name_inj (s s' : string) :
  ind_head_module_name_of base_task s = ind_head_module_name_of base_task s' →
  s = s'.
Proof.
  unfold ind_head_module_name_of. intros H.
  destruct (Str.app_inj_suffix _ _ _ _ eq_refl H) as [H' _].
  by apply ind_task_name_inj in H'.
Qed.

Lemma pred_transform_name_inj (s s' : string) :
  pred_transform_module_name_of base_task s
  = pred_transform_module_name_of base_task s' →
  s = s'.
Proof.
  unfold pred_transform_module_name_of. intros H.
  destruct (Str.app_inj_suffix _ _ _ _ eq_refl H) as [H' _].
  by apply pred_task_name_inj in H'.
Qed.

Lemma ind_head_pred_head_name_ne (s s' : string) :
  ind_head_module_name_of base_task s ≠ pred_head_module_name_of base_task s'.
Proof.
  unfold ind_head_module_name_of, pred_head_module_name_of. intros H.
  destruct (Str.app_inj_suffix _ _ _ _ eq_refl H) as [H' _].
  by apply ind_pred_task_name_ne in H'.
Qed.

Lemma ind_head_pred_transform_name_ne (s s' : string) :
  ind_head_module_name_of base_task s
  ≠ pred_transform_module_name_of base_task s'.
Proof.
  unfold ind_head_module_name_of, pred_transform_module_name_of.
  intros H. change "_transform" with ("_tran" +:+ "sform") in H.
  rewrite <- Str.app_assoc in H.
  by destruct (Str.app_inj_suffix _ (_ +:+ "_tran") "_head" "sform" eq_refl H).
Qed.

(** Names that no iteration binds keep their module. *)
Lemma ind_pool_frame (l : list string) (n : loc) (pool : gmap string loc)
    (k : string) :
  (∀ s, s ∈ l → k ≠ ind_head_module_name_of base_task s) →
  ind_pool base_task n l pool !! k = pool !! k.
Proof.
  revert n pool. induction l as [|s l IH]; intros n pool Hk; simpl; [done|].
  rewrite IH; [|intros s' ?; apply Hk; by right].
  rewrite lookup_insert_ne; [done|].
  intros H. symmetry in H. revert H. apply Hk. by left.
Qed.

Lemma pred_pool_frame (shared : loc) (l : list string) (n : loc)
    (pool : gmap string loc) (k : string) :
  (∀ s, s ∈ l → k ≠ pred_transform_module_name_of base_task s ∧
                k ≠ pred_head_module_name_of base_task s) →
  pred_pool base_task shared n l pool !! k = pool !! k.
Proof.
  revert n pool. induction l as [|s l IH]; intros n pool Hk; simpl; [done|].
  rewrite IH; [|intros s' ?; apply Hk; by right].
  destruct (Hk s) as [Ht Hh]; [by left|].
  by rewrite !lookup_insert_ne.
Qed.

(** The indicator head of a slice is the module created by the last
    iteration for its name. *)
Lemma ind_pool_last (l : list string) (n : loc) (pool : gmap string loc)
    (i : nat) (s : string) :
  l !! i = Some s →
  (∀ j, (i < j)%nat → l !! j ≠ Some s) →
  ind_pool base_task n l pool !! ind_head_module_name_of base_task s
  = Some (n + i)%nat.
Proof.
  revert n pool i. induction l as [|s0 l IH]; intros n pool i Hi Hlast;
    [done|].
  destruct i as [|i]; simpl in *.
  - injection Hi as ->. rewrite ind_pool_frame.
    + by rewrite lookup_insert_eq, Nat.add_0_r.
    + intros s' [j Hj]%list_elem_of_lookup Heq%ind_head_name_inj.
      subst s'. by apply (Hlast (S j)); [lia|].
  - rewrite (IH _ _ i); [f_equal; lia | done |].
    intros j Hlt. apply (Hlast (S j)). lia.
Qed.

(** Likewise for the transform of a slice. *)
Lemma pred_pool_last (shared : loc) (l : list string) (n : loc)
    (pool : gmap string loc) (i : nat) (s : string) :
  l !! i = Some s →
  (∀ j, (i < j)%nat → l !! j ≠ Some s) →
  pred_pool base_task shared n l pool
  !! pred_transform_module_name_of base_task s
  = Some (n + i)%nat.
Proof.
  revert n pool i. induction l as [|s0 l IH]; intros n pool i Hi Hlast;
    [done|].
  destruct i as [|i]; simpl in *.
  - injection Hi as ->. rewrite pred_pool_frame.
    + rewrite lookup_insert_ne, lookup_insert_eq, Nat.add_0_r; [done|].
      apply pred_head_transform_name_ne.
    + intros s' [j Hj]%list_elem_of_lookup. split.
      * intros Heq%pred_transform_name_inj.
        subst s'. by apply (Hlast (S j)); [lia|].
      * intros H. symmetry in H. by apply pred_head_transform_name_ne in H.
  - rewrite (IH _ _ i); [f_equal; lia | done |].
    intros j Hlt. apply (Hlast (S j)). lia.
Qed.

End ModuleNames.

(** ** Parts of the heap that a function leaves alone *)

Section Unchanged.

Context {A B X : Type}.
Variable part : heap → X.

Lemma unchanged_ret (a : A) : unchanged part (mret a : M A).
Proof. by intros h. Qed.

Lemma unchanged_raise (e : exn) : unchanged part (raise e : M A).
Proof. by intros h. Qed.

Lemma unchanged_expect (e : exn) (o : option A) :
  unchanged part (expect e o).
Proof. destruct o; [apply unchanged_ret | apply unchanged_raise]. Qed.

Lemma unchanged_bind (m : M A) (k : A → M B) :
  unchanged part m → (∀ a, unchanged part (k a)) →
  unchanged part (m ≫= k).
Proof.
  intros Hm Hk h. unfold mbind, M_bind.
  specialize (Hm h). destruct (m h) as [[a|e] h']; simpl in *.
  - by rewrite Hk.
  - done.
Qed.

End Unchanged.

Lemma unchanged_for_each {A X} (part : heap → X) (l : list A)
    (body : A → M unit) :
  (∀ x, unchanged part (body x)) → unchanged part (for_each l body).
Proof.
  intros Hbody. induction l as [|x l IH]; simpl; [apply unchanged_ret|].
  apply unchanged_bind; [apply Hbody | by intros _].
Qed.

Lemma unchanged_for_fold {A S X} (part : heap → X) (l : list A)
    (body : S → A → M S) (s : S) :
  (∀ s x, unchanged part (body s x)) → unchanged part (for_fold l body s).
Proof.
  intros Hbody. revert s. induction l as [|x l IH]; intros s; simpl;
    [apply unchanged_ret|].
  apply unchanged_bind; [apply Hbody | by intros s'].
Qed.

(** Decompose a computation into its loops and binds; a primitive leaves a
    part alone when running it shows so. *)
Ltac unchanged_step :=
  first
    [ apply unchanged_for_each; intros ?
    | apply unchanged_for_fold; intros ? ?
    | apply unchanged_bind; [|intros ?]
    | apply unchanged_ret
    | apply unchanged_raise
    | apply unchanged_expect
    | match goal with
      | |- unchanged _ (match ?x with _ => _ end) => destruct x
      | |- unchanged _ (if ?b then _ else _) => destruct b
      end
    | progress unfold add_slice_labels_body, ind_task_body, pred_task_body,
        tensor_mul, Y_getitem, Y_setitem, pool_getitem, pool_setitem,
        pool_delitem, _add_base_slice, assert, ModuleDict, add_module_check
    | solve [intros ?; unfold read_list, read_module, read_pool,
               read_Y_dict, expect; simpl;
             repeat match goal with
                    | |- context [match ?o with _ => _ end] => destruct o
                    end; reflexivity] ].

Section UnchangedUtils.

Variable convert_labels : tensor → tensor.
Variable operation_name : string → string.

Lemma add_slice_labels_modules_unchanged (dataloader : loc)
    (base_task : Task) (slice_labels : ndarray) (slice_names : loc) :
  unchanged module_objs
    (add_slice_labels convert_labels dataloader base_task slice_labels
       slice_names).
Proof. unfold add_slice_labels. repeat unchanged_step. Qed.

Lemma add_slice_labels_pools_unchanged (dataloader : loc)
    (base_task : Task) (slice_labels : ndarray) (slice_names : loc) :
  unchanged pool_objs
    (add_slice_labels convert_labels dataloader base_task slice_labels
       slice_names).
Proof. unfold add_slice_labels. repeat unchanged_step. Qed.

Lemma convert_to_slice_tasks_Y_dicts_unchanged (base_task : Task)
    (slice_names : loc) :
  unchanged Y_dicts
    (convert_to_slice_tasks operation_name base_task slice_names).
Proof. unfold convert_to_slice_tasks. repeat unchanged_step. Qed.

End UnchangedUtils.

(** ** More on the entries written by the loop *)

Section IndicatorEntries.

Variable convert_labels : tensor → tensor.
Variables (base_task : Task) (slice_labels : ndarray) (labels : tensor).

(** The indicator entry of a name is the recoding of the last column that
    carries this name. *)
Lemma entries_last_ind (l : list (nat * string)) (d : gmap string tensor)
    (j i : nat) (s : string) :
  l !! j = Some (i, s) →
  (∀ j' i', (j < j')%nat → l !! j' ≠ Some (i', s)) →
  foldl (slice_entries convert_labels base_task slice_labels labels) d l
  !! ind_task_name_of (name base_task) s
  = Some (convert_labels (column slice_labels i)).
Proof.
  revert d j. induction l as [|[i0 s0] l IH]; intros d j Hj Hlast; [done|].
  destruct j as [|j]; simpl in *.
  - injection Hj as -> ->.
    rewrite entries_frame.
    + unfold slice_entries. simpl.
      rewrite lookup_insert_ne, lookup_insert_eq; [done|].
      intros H. symmetry in H. by apply ind_pred_task_name_ne in H.
    + intros i' s' [j' Hj']%list_elem_of_lookup.
      assert (s' ≠ s) as Hne.
      { intros ->. apply (Hlast (S j') i'); [lia | done]. }
      split.
      * intros H%ind_task_name_inj. done.
      * apply ind_pred_task_name_ne.
  - apply (IH _ j); [done|].
    intros j' i' Hlt. apply (Hlast (S j') i'). lia.
Qed.

End IndicatorEntries.

Lemma column_hstack_ones_last (a : ndarray) :
  column (hstack_ones a) (num_slices a) = replicate (num_points a) 1.
Proof.
  unfold column. simpl. rewrite Nat.ltb_irrefl.
  erewrite const_fmap; [by rewrite length_seq | done].
Qed.

Lemma column_hstack_ones_old (a : ndarray) (j : nat) :
  (j < num_slices a)%nat → column (hstack_ones a) j = column a j.
Proof.
  intros Hj. unfold column. simpl.
  by destruct (Nat.ltb_spec j (num_slices a)); [|lia].
Qed.

Lemma zip_with_mul64_ones (labels : tensor) :
  Forall int64 labels →
  zip_with mul64 (replicate (length labels) 1) labels = labels.
Proof.
  induction 1 as [|y labels Hy _ IH]; simpl; [done|].
  by rewrite IH, mul64_1_l.
Qed.

(** ** The label materializer: further properties *)

(** X1.  With base labels of the right size and one slice name per column,
    the entry registered under [{base}_slice:{s}_ind] is the recoding of
    the membership column of [s] alone (the last column that carries this
    name): the base labels do not enter it. *)
Theorem ind_labels_are_recoded_membership (convert_labels : tensor → tensor)
    (h : heap) (dataloader : loc) (base_task : Task)
    (slice_labels : ndarray) (slice_names : loc) (names : list string)
    (Y : gmap string tensor) (labels : tensor)
    (Hnames : list_objs h !! slice_names = Some names)
    (HY : Y_dicts h !! dataloader = Some Y)
    (Hcols : length names = num_slices slice_labels)
    (Hlabels : Y !! name base_task = Some labels)
    (Hsize : length labels = num_points slice_labels) :
  ∃ h' Y',
    add_slice_labels convert_labels dataloader base_task slice_labels
      slice_names h = (Ok tt, h') ∧
    Y_dicts h' !! dataloader = Some Y' ∧
    ∀ (i : nat) (s : string),
      normal_names names !! i = Some s →
      (∀ j, (i < j)%nat → normal_names names !! j ≠ Some s) →
      Y' !! ind_task_name_of (name base_task) s
      = Some (convert_labels (column (normal_labels names slice_labels) i)).
Proof.
  destruct (add_slice_labels_cases convert_labels h dataloader base_task
              slice_labels slice_names names Y Hnames HY)
    as (h1 & Hrun & _ & _ & _ & HYs).
  unfold add_slice_labels_outcome in Hrun.
  rewrite (normal_shape _ _ Hcols), Nat.eqb_refl, Hlabels in Hrun.
  rewrite broadcast_mul_same_size in Hrun
    by by rewrite length_column, normal_num_points.
  eexists _, _. split; [exact Hrun|].
  split; [eapply lookup_set_Y_dict; by rewrite HYs|].
  intros i s Hi Hlast.
  apply (entries_last_ind _ _ _ _ _ _ i i s).
  - by rewrite lookup_enumerate, Hi.
  - intros j' i' Hlt Hj'. rewrite lookup_enumerate in Hj'.
    destruct (normal_names names !! j') as [s'|] eqn:E; [|done].
    simpl in Hj'. injection Hj' as <- <-. by apply (Hlast j').
Qed.

Lemma ind_labels_are_recoded_membership_witness :
  ∃ h' Y',
    add_slice_labels Example.convert_labels 0%nat Example.base_task
      Example.slice_labels 0%nat Example.h = (Ok tt, h') ∧
    Y_dicts h' !! 0%nat = Some Y' ∧
    ∀ (i : nat) (s : string),
      normal_names ["rare"] !! i = Some s →
      (∀ j, (i < j)%nat → normal_names ["rare"] !! j ≠ Some s) →
      Y' !! ind_task_name_of (name Example.base_task) s
      = Some (Example.convert_labels
                (column (normal_labels ["rare"] Example.slice_labels) i)).
Proof.
  apply (ind_labels_are_recoded_membership Example.convert_labels Example.h
           0%nat Example.base_task Example.slice_labels 0%nat ["rare"]
           {[ "T" := [1; 2; 1] ]} [1; 2; 1]);
    reflexivity.
Defined.

(** X2.  When no slice is named "base", the predictor labels registered
    for the added base slice are the base labels themselves, and its
    indicator labels are the recoding of a column of ones: the base slice
    has every example. *)
Theorem base_slice_labels_are_base_labels (convert_labels : tensor → tensor)
    (h : heap) (dataloader : loc) (base_task : Task)
    (slice_labels : ndarray) (slice_names : loc) (names : list string)
    (Y : gmap string tensor) (labels : tensor)
    (Hnames : list_objs h !! slice_names = Some names)
    (HY : Y_dicts h !! dataloader = Some Y)
    (Hcols : length names = num_slices slice_labels)
    (Hlabels : Y !! name base_task = Some labels)
    (Hsize : length labels = num_points slice_labels)
    (Hint : Forall int64 labels)
    (Hbase : "base" ∉ names) :
  ∃ h' Y',
    add_slice_labels convert_labels dataloader base_task slice_labels
      slice_names h = (Ok tt, h') ∧
    Y_dicts h' !! dataloader = Some Y' ∧
    Y' !! pred_task_name_of (name base_task) "base" = Some labels ∧
    Y' !! ind_task_name_of (name base_task) "base"
    = Some (convert_labels (replicate (num_points slice_labels) 1)).
Proof.
  destruct (add_slice_labels_cases convert_labels h dataloader base_task
              slice_labels slice_names names Y Hnames HY)
    as (h1 & Hrun & _ & _ & _ & HYs).
  unfold add_slice_labels_outcome in Hrun.
  rewrite (normal_shape _ _ Hcols), Nat.eqb_refl, Hlabels in Hrun.
  rewrite broadcast_mul_same_size in Hrun
    by by rewrite length_column, normal_num_points.
  eexists _, _. split; [exact Hrun|].
  split; [eapply lookup_set_Y_dict; by rewrite HYs|].
  assert (normal_names names = names ++ ["base"]) as Hn
    by (unfold normal_names; by rewrite bool_decide_eq_false_2).
  assert (normal_labels names slice_labels = hstack_ones slice_labels) as Ha
    by (unfold normal_labels; by rewrite bool_decide_eq_false_2).
  rewrite Hn, Ha.
  assert (enumerate (names ++ ["base"]) !! length names
          = Some (length names, "base")) as Hi.
  { rewrite lookup_enumerate, lookup_app_r, Nat.sub_diag; done. }
  assert (∀ j' i', (length names < j')%nat →
            enumerate (names ++ ["base"]) !! j' ≠ Some (i', "base"))
    as Hlast.
  { intros j' i' Hlt. rewrite lookup_enumerate, lookup_ge_None_2; [done|].
    rewrite length_app. simpl. lia. }
  split.
  - rewrite (entries_last _ _ _ _ _ _ _ _ _ Hi Hlast).
    rewrite Hcols, column_hstack_ones_last, <- Hsize.
    rewrite broadcast_mul_same_size by by rewrite length_replicate.
    simpl. by rewrite zip_with_mul64_ones.
  - rewrite (entries_last_ind _ _ _ _ _ _ _ _ _ Hi Hlast).
    by rewrite Hcols, column_hstack_ones_last.
Qed.

Lemma base_slice_labels_are_base_labels_witness :
  ∃ h' Y',
    add_slice_labels Example.convert_labels 0%nat Example.base_task
      Example.slice_labels 0%nat Example.h = (Ok tt, h') ∧
    Y_dicts h' !! 0%nat = Some Y' ∧
    Y' !! pred_task_name_of (name Example.base_task) "base"
    = Some [1; 2; 1] ∧
    Y' !! ind_task_name_of (name Example.base_task) "base"
    = Some (Example.convert_labels
              (replicate (num_points Example.slice_labels) 1)).
Proof.
  apply (base_slice_labels_are_base_labels Example.convert_labels Example.h
           0%nat Example.base_task Example.slice_labels 0%nat ["rare"]
           {[ "T" := [1; 2; 1] ]} [1; 2; 1]);
    try reflexivity.
  - repeat constructor; unfold int64; lia.
  - intros H. apply list_elem_of_singleton in H. discriminate H.
Defined.

(** X3.  [add_slice_labels] raises [KeyError] exactly when the shapes agree
    and the label dictionary has no entry under the name of the base task:
    the base labels are looked up after the assertion and before the
    loop. *)
Theorem add_slice_labels_missing_base_labels
    (convert_labels : tensor → tensor) (h : heap) (dataloader : loc)
    (base_task : Task) (slice_labels : ndarray) (slice_names : loc)
    (names : list string) (Y : gmap string tensor)
    (Hnames : list_objs h !! slice_names = Some names)
    (HY : Y_dicts h !! dataloader = Some Y) :
  (add_slice_labels convert_labels dataloader base_task slice_labels
     slice_names h).1 = Raise KeyError ↔
  num_slices (normal_labels names slice_labels)
  = length (normal_names names) ∧
  Y !! name base_task = None.
Proof.
  destruct (add_slice_labels_cases convert_labels h dataloader base_task
              slice_labels slice_names names Y Hnames HY)
    as (h1 & -> & _).
  unfold add_slice_labels_outcome.
  destruct (Nat.eqb_spec (num_slices (normal_labels names slice_labels))
              (length (normal_names names))) as [Heq|Hne]; simpl.
  - destruct (Y !! name base_task) as [labels|] eqn:Hlabels; simpl.
    + destruct (broadcast_mul _ labels); simpl;
        (split; [done | by intros [_ ?]]).
    + done.
  - split; [done | by intros [? _]].
Qed.

Lemma add_slice_labels_missing_base_labels_witness :
  (add_slice_labels Example.convert_labels 0%nat
     (mkTask "U" 0%nat [] (mkScorer [])) Example.slice_labels 0%nat
     Example.h).1 = Raise KeyError ↔
  num_slices (normal_labels ["rare"] Example.slice_labels)
  = length (normal_names ["rare"]) ∧
  ({[ "T" := [1; 2; 1] ]} : gmap string tensor)
  !! name (mkTask "U" 0%nat [] (mkScorer [])) = None.
Proof.
  apply (add_slice_labels_missing_base_labels Example.convert_labels
           Example.h 0%nat (mkTask "U" 0%nat [] (mkScorer []))
           Example.slice_labels 0%nat ["rare"] {[ "T" := [1; 2; 1] ]});
    reflexivity.
Defined.

(** X4.  Whatever its outcome, [add_slice_labels] leaves every module
    object and every module pool as it is: it writes label dictionaries
    and nothing else of the tasks. *)
Theorem add_slice_labels_keeps_modules_and_pools
    (convert_labels : tensor → tensor) (h : heap) (dataloader : loc)
    (base_task : Task) (slice_labels : ndarray) (slice_names : loc) :
  module_objs
    (add_slice_labels convert_labels dataloader base_task slice_labels
       slice_names h).2 = module_objs h ∧
  pool_objs
    (add_slice_labels convert_labels dataloader base_task slice_labels
       slice_names h).2 = pool_objs h.
Proof.
  split.
  - apply add_slice_labels_modules_unchanged.
  - apply add_slice_labels_pools_unchanged.
Qed.

(** X5.  [_add_base_slice] is idempotent: applied to its own result it
    returns the same array and the same list of names and leaves the heap
    as it is; no second column and no second "base" are added. *)
Theorem add_base_slice_idempotent (h : heap) (slice_labels : ndarray)
    (slice_names : loc) (names : list string)
    (Hnames : list_objs h !! slice_names = Some names) :
  ∃ slice_labels' slice_names' h',
    _add_base_slice slice_labels slice_names h
    = (Ok (slice_labels', slice_names'), h') ∧
    _add_base_slice slice_labels' slice_names' h'
    = (Ok (slice_labels', slice_names'), h').
Proof.
  destruct (add_base_slice_run h slice_labels slice_names names Hnames)
    as (r' & h' & Hrun & Hr' & _).
  eexists _, _, _. split; [exact Hrun|].
  unfold _add_base_slice.
  rewrite (run_bind_ok _ _ h' h' (normal_names names));
    [|unfold read_list; by apply run_expect_some].
  rewrite bool_decide_eq_true_2 by apply normal_names_base.
  by rewrite run_ret.
Qed.

Lemma add_base_slice_idempotent_witness :
  ∃ slice_labels' slice_names' h',
    _add_base_slice Example.slice_labels 0%nat Example.h
    = (Ok (slice_labels', slice_names'), h') ∧
    _add_base_slice slice_labels' slice_names' h'
    = (Ok (slice_labels', slice_names'), h').
Proof.
  apply (add_base_slice_idempotent Example.h Example.slice_labels 0%nat
           ["rare"]).
  reflexivity.
Defined.

(** X6.  [_add_base_slice] keeps what it is given: the number of examples,
    every item of the existing columns and every name at its position.
    When "base" is absent it adds one last column, all ones, and the name
    "base" in the last position; when "base" is present it returns its
    arguments and leaves the heap as it is. *)
Theorem add_base_slice_keeps_columns (h : heap) (slice_labels : ndarray)
    (slice_names : loc) (names : list string)
    (Hnames : list_objs h !! slice_names = Some names) :
  ∃ slice_labels' slice_names' names' h',
    _add_base_slice slice_labels slice_names h
    = (Ok (slice_labels', slice_names'), h') ∧
    list_objs h' !! slice_names' = Some names' ∧
    num_points slice_labels' = num_points slice_labels ∧
    (∀ e j, (j < num_slices slice_labels)%nat →
            item slice_labels' e j = item slice_labels e j) ∧
    (∀ j s, names !! j = Some s → names' !! j = Some s) ∧
    ("base" ∉ names →
     num_slices slice_labels' = S (num_slices slice_labels) ∧
     (∀ e, item slice_labels' e (num_slices slice_labels) = 1) ∧
     names' !! length names = Some "base" ∧
     length names' = S (length names)) ∧
    ("base" ∈ names →
     slice_labels' = slice_labels ∧ slice_names' = slice_names ∧ h' = h).
Proof.
  unfold _add_base_slice.
  rewrite (run_bind_ok _ _ h h names);
    [|unfold read_list; by apply run_expect_some].
  case_bool_decide as Hbase.
  - exists slice_labels, slice_names, names, h. rewrite run_ret.
    repeat split; done.
  - eexists _, _, _, _. split; [reflexivity|]. simpl.
    split; [by rewrite lookup_app_r, Nat.sub_diag|].
    split; [done|]. split; [|split; [|split; [|done]]].
    + intros e j Hj. by destruct (Nat.ltb_spec j (num_slices slice_labels));
        [|lia].
    + intros j s Hj. by apply lookup_app_l_Some.
    + intros _. split; [done|]. split.
      * intros e. by rewrite Nat.ltb_irrefl.
      * split; [by rewrite lookup_app_r, Nat.sub_diag|].
        rewrite length_app. simpl. lia.
Qed.

Lemma add_base_slice_keeps_columns_witness :
  ∃ slice_labels' slice_names' names' h',
    _add_base_slice Example.slice_labels 0%nat Example.h
    = (Ok (slice_labels', slice_names'), h') ∧
    list_objs h' !! slice_names' = Some names' ∧
    num_points slice_labels' = num_points Example.slice_labels ∧
    (∀ e j, (j < num_slices Example.slice_labels)%nat →
            item slice_labels' e j = item Example.slice_labels e j) ∧
    (∀ j s, ["rare"] !! j = Some s → names' !! j = Some s) ∧
    ("base" ∉ ["rare"] →
     num_slices slice_labels' = S (num_slices Example.slice_labels) ∧
     (∀ e, item slice_labels' e (num_slices Example.slice_labels) = 1) ∧
     names' !! length ["rare"] = Some "base" ∧
     length names' = S (length ["rare"])) ∧
    ("base" ∈ ["rare"] →
     slice_labels' = Example.slice_labels ∧ slice_names' = 0%nat ∧
     h' = Example.h).
Proof.
  apply (add_base_slice_keeps_columns Example.h Example.slice_labels 0%nat
           ["rare"]).
  reflexivity.
Defined.

(** ** The expander: failures *)

Lemma dotted_not_dotless (b : string) (names : list string) :
  has_dot b = true ∨ Exists (λ s, has_dot s = true) names →
  has_dot b = false → Forall (λ s, has_dot s = false) names → False.
Proof.
  intros [Hb|Hex] Hb' Hall; [congruence|].
  apply Exists_exists in Hex as (s & Hs & Hdot).
  rewrite Forall_forall in Hall. specialize (Hall s Hs). congruence.
Qed.

Lemma dotless_or_dotted (l : list string) :
  Forall (λ s, has_dot s = false) l ∨ Exists (λ s, has_dot s = true) l.
Proof.
  induction l as [|s l [IH|IH]].
  - by left.
  - destruct (has_dot s) eqn:Hs.
    + right. by left.
    + left. by constructor.
  - right. by right.
Qed.

(** Either all slices are bound, or a name has a ".". *)
Lemma bound_slices_cases (base_task : Task) (names : list string) :
  (bound_slices base_task names =? length (normal_names names))%nat = true ∧
  has_dot (name base_task) = false ∧
  Forall (λ s, has_dot s = false) names
  ∨
  (bound_slices base_task names =? length (normal_names names))%nat = false ∧
  (bound_slices base_task names < length (normal_names names))%nat ∧
  (has_dot (name base_task) = true ∨
   Exists (λ s, has_dot s = true) names).
Proof.
  pose proof (bound_slices_le base_task names) as Hle.
  pose proof (bound_slices_all base_task names) as Hall.
  destruct (has_dot (name base_task)) eqn:Hb.
  - right. split; [|split; [|by left]].
    + apply Nat.eqb_neq. intros H. by apply Hall in H as [? _].
    + assert (bound_slices base_task names
              ≠ length (normal_names names)); [|lia].
      intros H. by apply Hall in H as [? _].
  - destruct (dotless_or_dotted names) as [Hd|Hd].
    + left. split; [|done]. apply Nat.eqb_eq. by apply Hall.
    + assert (bound_slices base_task names
              ≠ length (normal_names names)) as Hne.
      { intros H. apply Hall in H as [_ H].
        eapply dotted_not_dotless; [by right | exact Hb | done]. }
      right. split; [by apply Nat.eqb_neq|]. split; [lia | by right].
Qed.

Section ExpanderFailures.

Variable operation_name : string → string.
Variables (h : heap) (base_task : Task) (slice_names : loc).
Variables (names : list string) (pool : gmap string loc).
Hypothesis Hnames : list_objs h !! slice_names = Some names.
Hypothesis Hpool : pool_objs h !! module_pool base_task = Some pool.

Local Abbreviation run :=
  (convert_to_slice_tasks operation_name base_task slice_names h).

(** Case analysis on the checks of the expander. *)
Ltac expander_cases :=
  rewrite (convert_to_slice_tasks_cases operation_name h base_task
             slice_names names pool Hnames Hpool);
  unfold convert_to_slice_tasks_outcome;
  destruct (last (task_flow base_task)) as [head_module_op|] eqn:Hflow;
    [destruct (pool !! module_name head_module_op) as [head_module|]
       eqn:Hhead;
     [destruct (module_objs h !! head_module) as [head_module_obj|] eqn:Hobj;
      [destruct (module_objs h !! unwrapped head_module_obj head_module)
         as [[neck_size cardinality| | |]|] eqn:Hlinear;
       [destruct (bound_slices_cases base_task names)
          as [(-> & Hbase & Hdots)|(-> & Hbound & Hdotted)]|..]|]|]|];
  simpl.

(** X7.  [convert_to_slice_tasks] raises [IndexError] exactly when the task
    flow of the base task is empty. *)
Theorem convert_to_slice_tasks_empty_flow :
  run.1 = Raise IndexError ↔ task_flow base_task = [].
Proof.
  rewrite <- last_None. expander_cases; by split.
Qed.

(** X8.  [convert_to_slice_tasks] raises [KeyError] in two cases and no
    other: the pool of the base task has no module under the module name
    of the last operation; or the head is a linear module and the name of
    the base task or a slice name contains a ".", so that the pool refuses
    the name of a slice module. *)
Theorem convert_to_slice_tasks_key_error_iff :
  run.1 = Raise KeyError ↔
  (∃ head_module_op,
     last (task_flow base_task) = Some head_module_op ∧
     pool !! module_name head_module_op = None) ∨
  (∃ head_module_op head_module head_module_obj neck_size cardinality,
     last (task_flow base_task) = Some head_module_op ∧
     pool !! module_name head_module_op = Some head_module ∧
     module_objs h !! head_module = Some head_module_obj ∧
     module_objs h !! unwrapped head_module_obj head_module
     = Some (Linear neck_size cardinality) ∧
     (has_dot (name base_task) = true ∨
      Exists (λ s, has_dot s = true) names)).
Proof.
  expander_cases.
  2: split; [intros _; right; eexists _, _, _, _, _; by repeat split|done].
  7: split; [intros _; left; by eexists|done].
  all: split; [done|].
  all: intros [(op & Hop & Hnone)
              |(op & hm & obj & n & c & Hop & Hhm & Hob & Hm & Hdot)];
    try congruence.
  exfalso. by eapply dotted_not_dotless.
Qed.

(** X9.  [convert_to_slice_tasks] raises [AttributeError] exactly when the
    module of the last operation, once one replication wrapper is removed,
    is not a linear module.  One wrapper only is removed: a head under two
    wrappers is refused. *)
Theorem convert_to_slice_tasks_head_without_features :
  run.1 = Raise AttributeError ↔
  ∃ head_module_op head_module head_module_obj m,
    last (task_flow base_task) = Some head_module_op ∧
    pool !! module_name head_module_op = Some head_module ∧
    module_objs h !! head_module = Some head_module_obj ∧
    module_objs h !! unwrapped head_module_obj head_module = Some m ∧
    ∀ in_features out_features, m ≠ Linear in_features out_features.
Proof.
  expander_cases.
  3-5: split; [intros _; eexists _, _, _, _; by repeat split|done].
  all: split; [done|].
  all: intros (op & hm & obj & m & Hop & Hhm & Hob & Hm & Hnot).
  all: congruence.
Qed.

(** X10.  [convert_to_slice_tasks] returns exactly when the module of the
    last operation, once one replication wrapper is removed, is a linear
    module and neither the name of the base task nor a slice name contains
    a ".". *)
Theorem convert_to_slice_tasks_returns_iff :
  (∃ tasks, run.1 = Ok tasks) ↔
  (∃ head_module_op head_module head_module_obj neck_size cardinality,
     last (task_flow base_task) = Some head_module_op ∧
     pool !! module_name head_module_op = Some head_module ∧
     module_objs h !! head_module = Some head_module_obj ∧
     module_objs h !! unwrapped head_module_obj head_module
     = Some (Linear neck_size cardinality)) ∧
  has_dot (name base_task) = false ∧
  Forall (λ s, has_dot s = false) names.
Proof.
  expander_cases.
  1: split; [intros _; split; [eexists _, _, _, _, _; by repeat split|done]
            |eauto].
  all: split; [by intros [? ?]|].
  all: intros ((op & hm & obj & n & c & Hop & Hhm & Hob & Hm) & Hb & Hd).
  1: exfalso; by eapply dotted_not_dotless.
  all: congruence.
Qed.

(** X11.  A failure of [convert_to_slice_tasks] at one of its checks comes
    before its first write: when the call raises an exception other than
    [KeyError], or raises while neither the name of the base task nor a
    slice name contains a ".", the module objects, the module pools, that
    of the base task among them, and the label dictionaries are as they
    were before the call. *)
Theorem convert_to_slice_tasks_check_failure_writes_nothing :
  ∀ e, run.1 = Raise e →
       e ≠ KeyError ∨
       (has_dot (name base_task) = false ∧
        Forall (λ s, has_dot s = false) names) →
       module_objs run.2 = module_objs h ∧
       pool_objs run.2 = pool_objs h ∧
       Y_dicts run.2 = Y_dicts h.
Proof.
  intros e. expander_cases; try done.
  intros [= <-] [?|[Hb Hd]]; [done|].
  exfalso. by eapply dotted_not_dotless.
Qed.

(** X21.  A module name with a "." is refused after the head module has
    been deleted.  With a linear head and a "." in the name of the base
    task or in a slice name, the call raises [KeyError] and leaves the
    pool of the base task without the head module (when its name is not
    the name of an indicator head), with the other modules it had, and
    with the indicator heads created so far, at least one, as new module
    objects. *)
Theorem convert_to_slice_tasks_refused_name_loses_head
    (head_module_op : Operation) (head_module : loc)
    (head_module_obj : module) (neck_size cardinality : nat)
    (Hflow : last (task_flow base_task) = Some head_module_op)
    (Hhead : pool !! module_name head_module_op = Some head_module)
    (Hobj : module_objs h !! head_module = Some head_module_obj)
    (Hlinear :
       module_objs h !! unwrapped head_module_obj head_module
       = Some (Linear neck_size cardinality))
    (Hdotted :
       has_dot (name base_task) = true ∨
       Exists (λ s, has_dot s = true) names) :
  (convert_to_slice_tasks operation_name base_task slice_names h).1
  = Raise KeyError ∧
  ∃ pool',
    pool_objs
      (convert_to_slice_tasks operation_name base_task slice_names h).2
    !! module_pool base_task = Some pool' ∧
    (Forall (λ s, module_name head_module_op
                  ≠ ind_head_module_name_of base_task s)
       (normal_names names) →
     pool' !! module_name head_module_op = None) ∧
    (∀ k, k ≠ module_name head_module_op → is_Some (pool !! k) →
          is_Some (pool' !! k)) ∧
    (bound_slices base_task names < length (normal_names names))%nat ∧
    module_objs
      (convert_to_slice_tasks operation_name base_task slice_names h).2
    = module_objs h
      ++ replicate (S (bound_slices base_task names)) (Linear neck_size 2).
Proof.
  rewrite (convert_to_slice_tasks_cases operation_name h base_task
             slice_names names pool Hnames Hpool).
  unfold convert_to_slice_tasks_outcome.
  rewrite Hflow, Hhead, Hobj, Hlinear.
  destruct (bound_slices_cases base_task names)
    as [(_ & Hbase & Hdots)|(-> & Hbound & _)];
    [exfalso; by eapply dotted_not_dotless|].
  split; [done|]. eexists. split.
  { simpl. apply list_lookup_insert_eq. by eapply lookup_lt_Some. }
  split; [|split; [|done]].
  - intros Hfresh. rewrite ind_pool_frame, lookup_delete_eq; [done|].
    intros s Hs%subseteq_take. rewrite Forall_forall in Hfresh.
    by apply Hfresh.
  - intros k Hk Hsome. apply ind_pool_mono.
    by rewrite lookup_delete_is_Some.
Qed.

End ExpanderFailures.

Lemma convert_to_slice_tasks_empty_flow_witness :
  (convert_to_slice_tasks Example.operation_name
     (mkTask "T" 0%nat [] (mkScorer [])) 0%nat Example.h).1
  = Raise IndexError ↔
  task_flow (mkTask "T" 0%nat [] (mkScorer [])) = [].
Proof.
  apply (convert_to_slice_tasks_empty_flow Example.operation_name Example.h
           (mkTask "T" 0%nat [] (mkScorer [])) 0%nat ["rare"]
           {[ "B" := 0%nat; "H" := 1%nat ]});
    reflexivity.
Defined.

Lemma convert_to_slice_tasks_key_error_iff_witness :
  (convert_to_slice_tasks Example.operation_name Example.base_task 0%nat
     Example.h_dotted).1
  = Raise KeyError ↔
  (∃ head_module_op,
     last (task_flow Example.base_task) = Some head_module_op ∧
     ({[ "B" := 0%nat; "H" := 1%nat ]} : gmap string loc)
     !! module_name head_module_op = None) ∨
  (∃ head_module_op head_module head_module_obj neck_size cardinality,
     last (task_flow Example.base_task) = Some head_module_op ∧
     ({[ "B" := 0%nat; "H" := 1%nat ]} : gmap string loc)
     !! module_name head_module_op = Some head_module ∧
     module_objs Example.h_dotted !! head_module = Some head_module_obj ∧
     module_objs Example.h_dotted !! unwrapped head_module_obj head_module
     = Some (Linear neck_size cardinality) ∧
     (has_dot (name Example.base_task) = true ∨
      Exists (λ s, has_dot s = true) ["rare"; "v1.0"])).
Proof.
  apply (convert_to_slice_tasks_key_error_iff Example.operation_name
           Example.h_dotted Example.base_task 0%nat ["rare"; "v1.0"]
           {[ "B" := 0%nat; "H" := 1%nat ]});
    reflexivity.
Defined.

Lemma convert_to_slice_tasks_head_without_features_witness :
  (convert_to_slice_tasks Example.operation_name
     (mkTask "T" 0%nat [mkOperation "B" "B" []] (mkScorer [])) 0%nat
     Example.h).1
  = Raise AttributeError ↔
  ∃ head_module_op head_module head_module_obj m,
    last (task_flow (mkTask "T" 0%nat [mkOperation "B" "B" []]
                       (mkScorer [])))
    = Some head_module_op ∧
    ({[ "B" := 0%nat; "H" := 1%nat ]} : gmap string loc)
    !! module_name head_module_op = Some head_module ∧
    module_objs Example.h !! head_module = Some head_module_obj ∧
    module_objs Example.h !! unwrapped head_module_obj head_module
    = Some m ∧
    ∀ in_features out_features, m ≠ Linear in_features out_features.
Proof.
  apply (convert_to_slice_tasks_head_without_features
           Example.operation_name Example.h
           (mkTask "T" 0%nat [mkOperation "B" "B" []] (mkScorer [])) 0%nat
           ["rare"] {[ "B" := 0%nat; "H" := 1%nat ]});
    reflexivity.
Defined.

Lemma convert_to_slice_tasks_returns_iff_witness :
  (∃ tasks,
     (convert_to_slice_tasks Example.operation_name Example.base_task 0%nat
        Example.h_wrapped).1 = Ok tasks) ↔
  (∃ head_module_op head_module head_module_obj neck_size cardinality,
    last (task_flow Example.base_task) = Some head_module_op ∧
    ({[ "B" := 0%nat; "H" := 2%nat ]} : gmap string loc)
    !! module_name head_module_op = Some head_module ∧
    module_objs Example.h_wrapped !! head_module = Some head_module_obj ∧
    module_objs Example.h_wrapped !! unwrapped head_module_obj head_module
    = Some (Linear neck_size cardinality)) ∧
  has_dot (name Example.base_task) = false ∧
  Forall (λ s, has_dot s = false) ["rare"].
Proof.
  apply (convert_to_slice_tasks_returns_iff Example.operation_name
           Example.h_wrapped Example.base_task 0%nat ["rare"]
           {[ "B" := 0%nat; "H" := 2%nat ]});
    reflexivity.
Defined.

Lemma convert_to_slice_tasks_check_failure_writes_nothing_witness :
  (convert_to_slice_tasks Example.operation_name
     (mkTask "T" 0%nat [mkOperation "B" "B" []] (mkScorer [])) 0%nat
     Example.h).1 = Raise AttributeError ∧
  module_objs
    (convert_to_slice_tasks Example.operation_name
       (mkTask "T" 0%nat [mkOperation "B" "B" []] (mkScorer [])) 0%nat
       Example.h).2 = module_objs Example.h ∧
  pool_objs
    (convert_to_slice_tasks Example.operation_name
       (mkTask "T" 0%nat [mkOperation "B" "B" []] (mkScorer [])) 0%nat
       Example.h).2 = pool_objs Example.h ∧
  Y_dicts
    (convert_to_slice_tasks Example.operation_name
       (mkTask "T" 0%nat [mkOperation "B" "B" []] (mkScorer [])) 0%nat
       Example.h).2 = Y_dicts Example.h.
Proof.
  split; [reflexivity|].
  apply (convert_to_slice_tasks_check_failure_writes_nothing
           Example.operation_name Example.h
           (mkTask "T" 0%nat [mkOperation "B" "B" []] (mkScorer [])) 0%nat
           ["rare"] {[ "B" := 0%nat; "H" := 1%nat ]} eq_refl eq_refl
           AttributeError);
    [reflexivity | by left].
Defined.

Lemma convert_to_slice_tasks_refused_name_loses_head_witness :
  (convert_to_slice_tasks Example.operation_name Example.base_task 0%nat
     Example.h_dotted).1
  = Raise KeyError ∧
  ∃ pool',
    pool_objs
      (convert_to_slice_tasks Example.operation_name Example.base_task
         0%nat Example.h_dotted).2
    !! module_pool Example.base_task = Some pool' ∧
    (Forall (λ s, module_name (mkOperation "H" "H" [OpOutput "B" 0])
                  ≠ ind_head_module_name_of Example.base_task s)
       (normal_names ["rare"; "v1.0"]) →
     pool' !! module_name (mkOperation "H" "H" [OpOutput "B" 0]) = None) ∧
    (∀ k, k ≠ module_name (mkOperation "H" "H" [OpOutput "B" 0]) →
          is_Some (({[ "B" := 0%nat; "H" := 1%nat ]} : gmap string loc)
                   !! k) →
          is_Some (pool' !! k)) ∧
    (bound_slices Example.base_task ["rare"; "v1.0"]
     < length (normal_names ["rare"; "v1.0"]))%nat ∧
    module_objs
      (convert_to_slice_tasks Example.operation_name Example.base_task
         0%nat Example.h_dotted).2
    = module_objs Example.h_dotted
      ++ replicate (S (bound_slices Example.base_task ["rare"; "v1.0"]))
           (Linear 8 2).
Proof.
  apply (convert_to_slice_tasks_refused_name_loses_head
           Example.operation_name Example.h_dotted Example.base_task 0%nat
           ["rare"; "v1.0"] {[ "B" := 0%nat; "H" := 1%nat ]} eq_refl eq_refl
           (mkOperation "H" "H" [OpOutput "B" 0]) 1%nat (Linear 8 3)
           8%nat 3%nat);
    first [reflexivity | right; right; left; reflexivity].
Defined.

(** X12.  Whatever its outcome, [convert_to_slice_tasks] leaves every label
    dictionary as it is. *)
Theorem convert_to_slice_tasks_keeps_labels
    (operation_name : string → string) (h : heap) (base_task : Task)
    (slice_names : loc) :
  Y_dicts (convert_to_slice_tasks operation_name base_task slice_names h).2
  = Y_dicts h.
Proof. apply convert_to_slice_tasks_Y_dicts_unchanged. Qed.

(** ** The expander: the tasks and the pool in detail *)

Section ExpandedModules.

Variables (h : heap) (base_task : Task) (head_module_op : Operation).
Variables (names : list string) (pool : gmap string loc).
Variables (master_head_module : loc) (neck_size cardinality : nat).

Local Abbreviation h' :=
  (expanded_heap h base_task head_module_op names pool master_head_module
     neck_size cardinality).
Local Abbreviation n0 := (length (module_objs h)).
Local Abbreviation N := (length (normal_names names)).

Lemma expanded_ind_head (i : nat) :
  (i < N)%nat → module_objs h' !! (n0 + i)%nat = Some (Linear neck_size 2).
Proof.
  intros Hi. unfold expanded_heap. cbn [module_objs].
  rewrite lookup_app_r by lia.
  rewrite lookup_app_l by (rewrite length_replicate; lia).
  apply lookup_replicate_2. lia.
Qed.

Lemma expanded_transform (i : nat) :
  (i < N)%nat →
  module_objs h' !! (n0 + N + 1 + i)%nat = Some (Linear neck_size neck_size).
Proof.
  intros Hi. unfold expanded_heap. cbn [module_objs].
  rewrite lookup_app_r by lia.
  rewrite lookup_app_r; rewrite length_replicate; [|lia].
  rewrite (lookup_app_r [_]); simpl length; [|lia].
  rewrite lookup_app_l by (rewrite length_replicate; lia).
  apply lookup_replicate_2. lia.
Qed.

Lemma expanded_other_pool (r : loc) :
  r ≠ module_pool base_task → (r < length (pool_objs h))%nat →
  pool_objs h' !! r = pool_objs h !! r.
Proof.
  intros Hr Hlt. simpl.
  rewrite lookup_app_l by by rewrite length_insert.
  by rewrite list_lookup_insert_ne.
Qed.

End ExpandedModules.

Global Instance ind_task_name_of_inj (b : string) :
  Inj (=) (=) (ind_task_name_of b).
Proof. intros s s'. apply ind_task_name_inj. Qed.

Global Instance pred_task_name_of_inj (b : string) :
  Inj (=) (=) (pred_task_name_of b).
Proof. intros s s'. apply pred_task_name_inj. Qed.

Lemma normal_names_NoDup (names : list string) :
  NoDup names → NoDup (normal_names names).
Proof.
  intros Hnd. unfold normal_names. case_bool_decide as Hb; [done|].
  apply NoDup_app. split; [done|]. split; [|apply NoDup_singleton].
  intros x Hx ->%list_elem_of_singleton. done.
Qed.

Section ExpanderDetails.

Variable operation_name : string → string.
Variables (h : heap) (base_task : Task) (slice_names : loc).
Variables (names : list string) (head_module_op : Operation).
Variables (pool : gmap string loc) (head_module : loc).
Variables (head_module_obj : module) (neck_size cardinality : nat).
Hypothesis Hnames : list_objs h !! slice_names = Some names.
Hypothesis Hflow : last (task_flow base_task) = Some head_module_op.
Hypothesis Hpool : pool_objs h !! module_pool base_task = Some pool.
Hypothesis Hhead : pool !! module_name head_module_op = Some head_module.
Hypothesis Hobj : module_objs h !! head_module = Some head_module_obj.
Hypothesis Hlinear :
  module_objs h !! unwrapped head_module_obj head_module
  = Some (Linear neck_size cardinality).
Hypothesis Hbase : has_dot (name base_task) = false.
Hypothesis Hdots : Forall (λ s, has_dot s = false) names.

Local Abbreviation run :=
  (convert_to_slice_tasks operation_name base_task slice_names h).
Local Abbreviation N := (length (normal_names names)).
Local Abbreviation body_flow := (removelast (task_flow base_task)).

(** X13.  For a base task with a linear head and no "." in its name or in
    a slice name, the call returns; the indicator tasks are scored by F1
    alone, whatever the scorer of the base task; the predictor tasks and
    the master task carry the scorer of the base task. *)
Theorem slice_task_scorers :
  ∃ ind_tasks pred_tasks master_task h',
    run = (Ok (ind_tasks ++ pred_tasks ++ [master_task]), h') ∧
    length ind_tasks = N ∧ length pred_tasks = N ∧
    Forall (λ t, scorer t = mkScorer ["f1"]) ind_tasks ∧
    Forall (λ t, scorer t = scorer base_task) (pred_tasks ++ [master_task]).
Proof.
  eexists _, _, _, _.
  split; [by eapply convert_to_slice_tasks_run|].
  rewrite !length_fmap. do 2 (split; [done|]).
  split; [by apply Forall_fmap, Forall_true|].
  apply Forall_app. split; [by apply Forall_fmap, Forall_true|].
  by apply Forall_singleton.
Qed.

(** X14.  For a base task with a linear head and no "." in its name or in
    a slice name, the call returns, and every returned task starts with
    the flow of the base task without its last operation.  An indicator task adds one operation, on
    the inputs of the removed head operation; a predictor task adds a
    transform on those same inputs and a head on output 0 of its own
    transform; the master task ends with a combiner without inputs and a
    head on output 0 of the combiner. *)
Theorem slice_task_wiring :
  ∃ ind_tasks pred_tasks master_task h',
    run = (Ok (ind_tasks ++ pred_tasks ++ [master_task]), h') ∧
    length ind_tasks = N ∧ length pred_tasks = N ∧
    Forall (λ t, body_flow `prefix_of` task_flow t)
      (ind_tasks ++ pred_tasks ++ [master_task]) ∧
    Forall
      (λ t, ∃ ind_head_op,
         task_flow t = body_flow ++ [ind_head_op] ∧
         module_name ind_head_op = name t +:+ "_head" ∧
         inputs ind_head_op = inputs head_module_op)
      ind_tasks ∧
    Forall
      (λ t, ∃ pred_transform_op pred_head_op,
         task_flow t = body_flow ++ [pred_transform_op; pred_head_op] ∧
         module_name pred_transform_op = name t +:+ "_transform" ∧
         inputs pred_transform_op = inputs head_module_op ∧
         module_name pred_head_op = name t +:+ "_head" ∧
         inputs pred_head_op = [OpOutput (op_name pred_transform_op) 0])
      pred_tasks ∧
    ∃ slice_task_ops master_combiner_op master_head_op,
      task_flow master_task
      = body_flow ++ slice_task_ops
        ++ [master_combiner_op; master_head_op] ∧
      module_name master_combiner_op
      = name base_task +:+ "_master_combiner" ∧
      inputs master_combiner_op = [] ∧
      module_name master_head_op = name base_task +:+ "_master_head" ∧
      inputs master_head_op = [OpOutput (op_name master_combiner_op) 0].
Proof.
  eexists _, _, _, _.
  split; [by eapply convert_to_slice_tasks_run|].
  rewrite !length_fmap. do 2 (split; [done|]).
  split; [|split; [|split]].
  - rewrite !Forall_app, Forall_singleton. split; [|split].
    + apply Forall_fmap, Forall_true. intros s. by eexists.
    + apply Forall_fmap, Forall_true. intros s. by eexists.
    + by eexists.
  - apply Forall_fmap, Forall_true. intros s. by eexists.
  - apply Forall_fmap, Forall_true. intros s. by eexists _, _.
  - by eexists _, _, _.
Qed.

Lemma own_ops_of_ind_tasks (l : list string) :
  concat ((λ t, drop (length body_flow) (task_flow t))
            <$> (ind_task_of operation_name base_task head_module_op <$> l))
  = (ind_head_op_of operation_name base_task head_module_op <$> l).
Proof.
  induction l as [|s l IH]; [done|].
  rewrite !fmap_cons. cbn [concat]. rewrite IH.
  unfold ind_task_of at 1. cbn [task_flow].
  by rewrite drop_app_length.
Qed.

Lemma own_ops_of_pred_tasks (l : list string) :
  concat ((λ t, drop (length body_flow) (task_flow t))
            <$> (pred_task_of operation_name base_task head_module_op <$> l))
  = concat (pred_task_ops_of operation_name base_task head_module_op <$> l).
Proof.
  induction l as [|s l IH]; [done|].
  rewrite !fmap_cons. cbn [concat]. rewrite IH.
  unfold pred_task_of at 1. cbn [task_flow].
  by rewrite drop_app_length.
Qed.

(** X15.  For a base task with a linear head and no "." in its name or in
    a slice name, the call returns, and the flow of the master task is the
    body, then the own operations
    of every slice task (its flow after the body) in the order in which
    the tasks are returned, then the combiner and the head: the master
    runs every operation of every indicator and predictor task. *)
Theorem master_flow_runs_every_slice_task :
  ∃ ind_tasks pred_tasks master_task h' master_combiner_op master_head_op,
    convert_to_slice_tasks operation_name base_task slice_names h
    = (Ok (ind_tasks ++ pred_tasks ++ [master_task]), h') ∧
    length ind_tasks = N ∧ length pred_tasks = N ∧
    task_flow master_task
    = body_flow
      ++ concat ((λ t, drop (length body_flow) (task_flow t))
                   <$> (ind_tasks ++ pred_tasks))
      ++ [master_combiner_op; master_head_op] ∧
    ∀ t op, t ∈ ind_tasks ++ pred_tasks → op ∈ task_flow t →
            op ∈ task_flow master_task.
Proof.
  eexists _, _, _, _, _, _.
  split; [by eapply convert_to_slice_tasks_run|].
  rewrite !length_fmap. do 2 (split; [done|]).
  assert (task_flow
            (master_task_of operation_name base_task head_module_op
               (normal_names names) (length (pool_objs h)))
          = body_flow
            ++ concat ((λ t, drop (length body_flow) (task_flow t))
                         <$> ((ind_task_of operation_name base_task
                                 head_module_op <$> normal_names names)
                              ++ (pred_task_of operation_name base_task
                                    head_module_op <$> normal_names names)))
            ++ [Operation_ operation_name
                  (name base_task +:+ "_master_combiner") [];
                Operation_ operation_name
                  (name base_task +:+ "_master_head")
                  [OpOutput
                     (operation_name
                        (name base_task +:+ "_master_combiner")) 0]])
    as Hmaster.
  { rewrite fmap_app, concat_app, own_ops_of_ind_tasks.
    by rewrite own_ops_of_pred_tasks. }
  split; [exact Hmaster|].
  intros t op Ht Hop. rewrite Hmaster.
  assert (body_flow `prefix_of` task_flow t) as [own Hown].
  { apply elem_of_app in Ht as [Ht|Ht];
      apply list_elem_of_fmap in Ht as (s & -> & _); by eexists. }
  rewrite Hown in Hop. apply elem_of_app in Hop as [Hop|Hop];
    [apply elem_of_app; by left|].
  apply elem_of_app. right. apply elem_of_app. left.
  apply list_elem_of_In, in_concat. exists own. split.
  - apply list_elem_of_In, list_elem_of_fmap. exists t. split; [|done].
    by rewrite Hown, drop_app_length.
  - by apply list_elem_of_In.
Qed.

(** X16.  For a base task with a linear head and no "." in its name or in
    a slice name, the call returns, and the names of the returned tasks
    are pairwise distinct exactly when the slice names, with the base
    slice, are: a repeated slice name
    gives two indicator tasks and two predictor tasks of one name. *)
Theorem slice_task_names_distinct_iff :
  ∃ tasks h',
    run = (Ok tasks, h') ∧
    (NoDup (name <$> tasks) ↔ NoDup (normal_names names)).
Proof.
  eexists _, _.
  split; [by eapply convert_to_slice_tasks_run|].
  rewrite !fmap_app, <- !list_fmap_compose.
  change (name ∘ ind_task_of operation_name base_task head_module_op)
    with (ind_task_name_of (name base_task)).
  change (name ∘ pred_task_of operation_name base_task head_module_op)
    with (pred_task_name_of (name base_task)).
  split.
  - intros [Hnd _]%NoDup_app. by apply NoDup_fmap_1 in Hnd.
  - intros Hnd. apply NoDup_app.
    split; [apply NoDup_fmap_2; [apply _ | done]|].
    split.
    + intros x (s & -> & _)%list_elem_of_fmap [Hin|Hin]%elem_of_app.
      * apply list_elem_of_fmap in Hin as (s' & Heq & _).
        by apply ind_pred_task_name_ne in Heq.
      * apply list_elem_of_singleton in Hin.
        by apply ind_task_name_ne_base in Hin.
    + apply NoDup_app.
      split; [apply NoDup_fmap_2; [apply _ | done]|].
      split; [|apply NoDup_singleton].
      intros x (s & -> & _)%list_elem_of_fmap Hin%list_elem_of_singleton.
      by apply pred_task_name_ne_base in Hin.
Qed.

End ExpanderDetails.

Section ExpanderPool.

Variable operation_name : string → string.
Variables (h : heap) (base_task : Task) (slice_names : loc).
Variables (names : list string) (head_module_op : Operation).
Variables (pool : gmap string loc) (head_module : loc).
Variables (head_module_obj : module) (neck_size cardinality : nat).
Hypothesis Hnames : list_objs h !! slice_names = Some names.
Hypothesis Hflow : last (task_flow base_task) = Some head_module_op.
Hypothesis Hpool : pool_objs h !! module_pool base_task = Some pool.
Hypothesis Hhead : pool !! module_name head_module_op = Some head_module.
Hypothesis Hobj : module_objs h !! head_module = Some head_module_obj.
Hypothesis Hlinear :
  module_objs h !! unwrapped head_module_obj head_module
  = Some (Linear neck_size cardinality).
Hypothesis Hbase : has_dot (name base_task) = false.
Hypothesis Hdots : Forall (λ s, has_dot s = false) names.

Local Abbreviation run :=
  (convert_to_slice_tasks operation_name base_task slice_names h).
Local Abbreviation N := (length (normal_names names)).
Local Abbreviation n0 := (length (module_objs h)).

(** X17.  For a base task with a linear head and no "." in its name or in
    a slice name, the call returns, and every slice has an indicator head
    and a transform of its own:
    for the slice at position [i] (the last of its name) the pool binds
    the indicator head to the [i]-th module created by the call, a linear
    module from the neck size to 2 whatever the cardinality of the base
    task, and the transform to the [i]-th module created after the shared
    head, a linear module from the neck size to itself.  Slices at
    different positions thus have different module objects. *)
Theorem slice_modules_are_private :
  ∃ tasks h' shared_pool,
    run = (Ok tasks, h') ∧
    pool_objs h' !! module_pool base_task = Some shared_pool ∧
    ∀ (i : nat) (s : string),
      normal_names names !! i = Some s →
      (∀ j, (i < j)%nat → normal_names names !! j ≠ Some s) →
      shared_pool !! ind_head_module_name_of base_task s
      = Some (n0 + i)%nat ∧
      module_objs h !! (n0 + i)%nat = None ∧
      module_objs h' !! (n0 + i)%nat = Some (Linear neck_size 2) ∧
      shared_pool !! pred_transform_module_name_of base_task s
      = Some (n0 + N + 1 + i)%nat ∧
      module_objs h !! (n0 + N + 1 + i)%nat = None ∧
      module_objs h' !! (n0 + N + 1 + i)%nat
      = Some (Linear neck_size neck_size).
Proof.
  eexists _, _, _.
  split; [by eapply convert_to_slice_tasks_run|].
  split; [by apply expanded_shared_pool|].
  intros i s Hi Hlast.
  pose proof (lookup_lt_Some _ _ _ Hi) as Hlt.
  split; [|split; [|split; [|split; [|split]]]].
  - rewrite pred_pool_frame; [by apply ind_pool_last|].
    intros s' _. split.
    + apply ind_head_pred_transform_name_ne.
    + apply ind_head_pred_head_name_ne.
  - apply lookup_ge_None. lia.
  - by apply expanded_ind_head.
  - by apply pred_pool_last.
  - apply lookup_ge_None. lia.
  - by apply expanded_transform.
Qed.

(** X18.  For a base task with a linear head and no "." in its name or in
    a slice name, the call returns, and it changes the pool of the base
    task at the module name of
    the removed head and at the names of the slice modules only: every
    other name keeps its module.  When the name of the head is not the
    name of a slice module, the pool has no module under it any more.
    The other pools and the module objects that existed keep their
    contents. *)
Theorem shared_pool_changes_only_slice_names :
  ∃ tasks h' shared_pool,
    run = (Ok tasks, h') ∧
    pool_objs h' !! module_pool base_task = Some shared_pool ∧
    (∀ k,
       k ≠ module_name head_module_op →
       Forall (λ s, k ≠ ind_head_module_name_of base_task s ∧
                    k ≠ pred_transform_module_name_of base_task s ∧
                    k ≠ pred_head_module_name_of base_task s)
         (normal_names names) →
       shared_pool !! k = pool !! k) ∧
    (Forall (λ s, module_name head_module_op
                  ≠ ind_head_module_name_of base_task s ∧
                  module_name head_module_op
                  ≠ pred_transform_module_name_of base_task s ∧
                  module_name head_module_op
                  ≠ pred_head_module_name_of base_task s)
       (normal_names names) →
     shared_pool !! module_name head_module_op = None) ∧
    (∀ r, r ≠ module_pool base_task → (r < length (pool_objs h))%nat →
          pool_objs h' !! r = pool_objs h !! r) ∧
    (∀ r m, module_objs h !! r = Some m → module_objs h' !! r = Some m).
Proof.
  eexists _, _, _.
  split; [by eapply convert_to_slice_tasks_run|].
  split; [by apply expanded_shared_pool|].
  assert (∀ k,
            Forall (λ s, k ≠ ind_head_module_name_of base_task s ∧
                         k ≠ pred_transform_module_name_of base_task s ∧
                         k ≠ pred_head_module_name_of base_task s)
              (normal_names names) →
            pred_pool base_task (n0 + N) (n0 + N + 1) (normal_names names)
              (ind_pool base_task n0 (normal_names names)
                 (delete (module_name head_module_op) pool)) !! k
            = delete (module_name head_module_op) pool !! k) as Hframe.
  { intros k Hk. rewrite Forall_forall in Hk.
    rewrite pred_pool_frame, ind_pool_frame; [done | |].
    - intros s Hs. by destruct (Hk s Hs).
    - intros s Hs. by destruct (Hk s Hs) as (_ & ? & ?). }
  split; [|split; [|split]].
  - intros k Hk Hfresh. by rewrite Hframe, lookup_delete_ne.
  - intros Hfresh. by rewrite Hframe, lookup_delete_eq.
  - intros r Hr Hlt. by apply expanded_other_pool.
  - intros r m Hm. by apply expanded_old_module.
Qed.

(** X19.  The call is destructive: for a base task with a linear head and
    no "." in its name or in a slice name, the first call returns, and
    when the name of the head module is not the name of a slice module, a
    second call on the same base task and the same slice names finds no
    head module and raises [KeyError]. *)
Theorem convert_to_slice_tasks_twice_fails
    (Hfresh :
       Forall (λ s, module_name head_module_op
                    ≠ ind_head_module_name_of base_task s ∧
                    module_name head_module_op
                    ≠ pred_transform_module_name_of base_task s ∧
                    module_name head_module_op
                    ≠ pred_head_module_name_of base_task s)
         (normal_names names)) :
  ∃ tasks h',
    run = (Ok tasks, h') ∧
    (convert_to_slice_tasks operation_name base_task slice_names h').1
    = Raise KeyError.
Proof.
  eexists _, _.
  split; [by eapply convert_to_slice_tasks_run|].
  erewrite convert_to_slice_tasks_cases;
    [|simpl; by apply lookup_app_l_Some | by apply expanded_shared_pool].
  unfold convert_to_slice_tasks_outcome. rewrite Hflow.
  rewrite pred_pool_frame, ind_pool_frame, lookup_delete_eq; [done | |].
  - rewrite Forall_forall in Hfresh.
    intros s Hs. by destruct (Hfresh s Hs).
  - rewrite Forall_forall in Hfresh.
    intros s Hs. by destruct (Hfresh s Hs) as (_ & ? & ?).
Qed.

End ExpanderPool.

(** ** The two functions together *)

(** X20.  For a base task with a linear head and no "." in its name or in
    a slice name, after [add_slice_labels], [convert_to_slice_tasks] on
    the same base task and the same list of slice names returns tasks
    that all
    have labels: the label dictionary has an entry under the name of every
    indicator task, every predictor task and the master task. *)
Theorem every_slice_task_has_labels (convert_labels : tensor → tensor)
    (operation_name : string → string) (h : heap) (dataloader : loc)
    (base_task : Task) (slice_labels : ndarray) (slice_names : loc)
    (names : list string) (Y : gmap string tensor) (labels : tensor)
    (head_module_op : Operation) (pool : gmap string loc)
    (head_module : loc) (head_module_obj : module)
    (neck_size cardinality : nat)
    (Hnames : list_objs h !! slice_names = Some names)
    (HY : Y_dicts h !! dataloader = Some Y)
    (Hcols : length names = num_slices slice_labels)
    (Hlabels : Y !! name base_task = Some labels)
    (Hsize : length labels = num_points slice_labels)
    (Hflow : last (task_flow base_task) = Some head_module_op)
    (Hpool : pool_objs h !! module_pool base_task = Some pool)
    (Hhead : pool !! module_name head_module_op = Some head_module)
    (Hobj : module_objs h !! head_module = Some head_module_obj)
    (Hlinear :
       module_objs h !! unwrapped head_module_obj head_module
       = Some (Linear neck_size cardinality))
    (Hbase : has_dot (name base_task) = false)
    (Hdots : Forall (λ s, has_dot s = false) names) :
  ∃ h1 tasks h2 Y',
    add_slice_labels convert_labels dataloader base_task slice_labels
      slice_names h = (Ok tt, h1) ∧
    convert_to_slice_tasks operation_name base_task slice_names h1
    = (Ok tasks, h2) ∧
    length tasks = (2 * length (normal_names names) + 1)%nat ∧
    Y_dicts h2 !! dataloader = Some Y' ∧
    Forall (λ t, is_Some (Y' !! name t)) tasks.
Proof.
  destruct (add_slice_labels_cases convert_labels h dataloader base_task
              slice_labels slice_names names Y Hnames HY)
    as (h0 & Hrun & Hlists & Hmods & Hpools & HYs).
  unfold add_slice_labels_outcome in Hrun.
  rewrite (normal_shape _ _ Hcols), Nat.eqb_refl, Hlabels in Hrun.
  rewrite broadcast_mul_same_size in Hrun
    by by rewrite length_column, normal_num_points.
  eexists _, _, _, _. split; [exact Hrun|].
  split.
  { eapply convert_to_slice_tasks_run; simpl; rewrite ?Hmods, ?Hpools;
      eauto. }
  split; [rewrite !length_app, !length_fmap; simpl; lia|].
  split.
  { cbn [expanded_heap Y_dicts set_Y_dict]. apply list_lookup_insert_eq.
    rewrite HYs. by eapply lookup_lt_Some. }
  assert (∀ s, s ∈ normal_names names →
               ∃ i, (i, s) ∈ enumerate (normal_names names)) as Hin.
  { intros s [i Hi]%list_elem_of_lookup. exists i.
    apply (list_elem_of_lookup_2 _ i). by rewrite lookup_enumerate, Hi. }
  rewrite !Forall_app, Forall_singleton. split; [|split].
  - apply Forall_fmap, Forall_forall. intros s [i Hi]%Hin.
    by eapply entries_written.
  - apply Forall_fmap, Forall_forall. intros s [i Hi]%Hin.
    by eapply entries_written.
  - apply entries_mono. simpl. by rewrite Hlabels.
Qed.

(** ** The example, in detail *)

Lemma slice_task_scorers_witness :
  ∃ ind_tasks pred_tasks master_task h',
    convert_to_slice_tasks Example.operation_name Example.base_task 0%nat
      Example.h
    = (Ok (ind_tasks ++ pred_tasks ++ [master_task]), h') ∧
    length ind_tasks = length (normal_names ["rare"]) ∧
    length pred_tasks = length (normal_names ["rare"]) ∧
    Forall (λ t, scorer t = mkScorer ["f1"]) ind_tasks ∧
    Forall (λ t, scorer t = scorer Example.base_task)
      (pred_tasks ++ [master_task]).
Proof.
  apply (slice_task_scorers Example.operation_name Example.h
           Example.base_task 0%nat ["rare"]
           (mkOperation "H" "H" [OpOutput "B" 0])
           {[ "B" := 0%nat; "H" := 1%nat ]} 1%nat (Linear 8 3) 8%nat 3%nat);
    first [reflexivity | by repeat constructor].
Defined.

Lemma slice_task_wiring_witness :
  ∃ ind_tasks pred_tasks master_task h',
    convert_to_slice_tasks Example.operation_name Example.base_task 0%nat
      Example.h
    = (Ok (ind_tasks ++ pred_tasks ++ [master_task]), h') ∧
    length ind_tasks = length (normal_names ["rare"]) ∧
    length pred_tasks = length (normal_names ["rare"]) ∧
    Forall (λ t, removelast (task_flow Example.base_task)
                 `prefix_of` task_flow t)
      (ind_tasks ++ pred_tasks ++ [master_task]) ∧
    Forall
      (λ t, ∃ ind_head_op,
         task_flow t
         = removelast (task_flow Example.base_task) ++ [ind_head_op] ∧
         module_name ind_head_op = name t +:+ "_head" ∧
         inputs ind_head_op = inputs (mkOperation "H" "H" [OpOutput "B" 0]))
      ind_tasks ∧
    Forall
      (λ t, ∃ pred_transform_op pred_head_op,
         task_flow t
         = removelast (task_flow Example.base_task)
           ++ [pred_transform_op; pred_head_op] ∧
         module_name pred_transform_op = name t +:+ "_transform" ∧
         inputs pred_transform_op
         = inputs (mkOperation "H" "H" [OpOutput "B" 0]) ∧
         module_name pred_head_op = name t +:+ "_head" ∧
         inputs pred_head_op = [OpOutput (op_name pred_transform_op) 0])
      pred_tasks ∧
    ∃ slice_task_ops master_combiner_op master_head_op,
      task_flow master_task
      = removelast (task_flow Example.base_task) ++ slice_task_ops
        ++ [master_combiner_op; master_head_op] ∧
      module_name master_combiner_op
      = name Example.base_task +:+ "_master_combiner" ∧
      inputs master_combiner_op = [] ∧
      module_name master_head_op
      = name Example.base_task +:+ "_master_head" ∧
      inputs master_head_op = [OpOutput (op_name master_combiner_op) 0].
Proof.
  apply (slice_task_wiring Example.operation_name Example.h
           Example.base_task 0%nat ["rare"]
           (mkOperation "H" "H" [OpOutput "B" 0])
           {[ "B" := 0%nat; "H" := 1%nat ]} 1%nat (Linear 8 3) 8%nat 3%nat);
    first [reflexivity | by repeat constructor].
Defined.

Lemma master_flow_runs_every_slice_task_witness :
  ∃ ind_tasks pred_tasks master_task h' master_combiner_op master_head_op,
    convert_to_slice_tasks Example.operation_name Example.base_task 0%nat
      Example.h
    = (Ok (ind_tasks ++ pred_tasks ++ [master_task]), h') ∧
    length ind_tasks = length (normal_names ["rare"]) ∧
    length pred_tasks = length (normal_names ["rare"]) ∧
    task_flow master_task
    = removelast (task_flow Example.base_task)
      ++ concat ((λ t, drop (length (removelast
                                       (task_flow Example.base_task)))
                         (task_flow t))
                   <$> (ind_tasks ++ pred_tasks))
      ++ [master_combiner_op; master_head_op] ∧
    ∀ t op, t ∈ ind_tasks ++ pred_tasks → op ∈ task_flow t →
            op ∈ task_flow master_task.
Proof.
  apply (master_flow_runs_every_slice_task Example.operation_name Example.h
           Example.base_task 0%nat ["rare"]
           (mkOperation "H" "H" [OpOutput "B" 0])
           {[ "B" := 0%nat; "H" := 1%nat ]} 1%nat (Linear 8 3) 8%nat 3%nat);
    first [reflexivity | by repeat constructor].
Defined.

Lemma slice_task_names_distinct_iff_witness :
  ∃ tasks h',
    convert_to_slice_tasks Example.operation_name Example.base_task 0%nat
      Example.h
    = (Ok tasks, h') ∧
    (NoDup (name <$> tasks) ↔ NoDup (normal_names ["rare"])).
Proof.
  apply (slice_task_names_distinct_iff Example.operation_name Example.h
           Example.base_task 0%nat ["rare"]
           (mkOperation "H" "H" [OpOutput "B" 0])
           {[ "B" := 0%nat; "H" := 1%nat ]} 1%nat (Linear 8 3) 8%nat 3%nat);
    first [reflexivity | by repeat constructor].
Defined.

Lemma slice_modules_are_private_witness :
  ∃ tasks h' shared_pool,
    convert_to_slice_tasks Example.operation_name Example.base_task 0%nat
      Example.h
    = (Ok tasks, h') ∧
    pool_objs h' !! module_pool Example.base_task = Some shared_pool ∧
    ∀ (i : nat) (s : string),
      normal_names ["rare"] !! i = Some s →
      (∀ j, (i < j)%nat → normal_names ["rare"] !! j ≠ Some s) →
      shared_pool !! ind_head_module_name_of Example.base_task s
      = Some (length (module_objs Example.h) + i)%nat ∧
      module_objs Example.h !! (length (module_objs Example.h) + i)%nat
      = None ∧
      module_objs h' !! (length (module_objs Example.h) + i)%nat
      = Some (Linear 8 2) ∧
      shared_pool !! pred_transform_module_name_of Example.base_task s
      = Some (length (module_objs Example.h)
              + length (normal_names ["rare"]) + 1 + i)%nat ∧
      module_objs Example.h
      !! (length (module_objs Example.h)
          + length (normal_names ["rare"]) + 1 + i)%nat = None ∧
      module_objs h'
      !! (length (module_objs Example.h)
          + length (normal_names ["rare"]) + 1 + i)%nat
      = Some (Linear 8 8).
Proof.
  apply (slice_modules_are_private Example.operation_name Example.h
           Example.base_task 0%nat ["rare"]
           (mkOperation "H" "H" [OpOutput "B" 0])
           {[ "B" := 0%nat; "H" := 1%nat ]} 1%nat (Linear 8 3) 8%nat 3%nat);
    first [reflexivity | by repeat constructor].
Defined.

Lemma shared_pool_changes_only_slice_names_witness :
  ∃ tasks h' shared_pool,
    convert_to_slice_tasks Example.operation_name Example.base_task 0%nat
      Example.h
    = (Ok tasks, h') ∧
    pool_objs h' !! module_pool Example.base_task = Some shared_pool ∧
    (∀ k,
       k ≠ "H" →
       Forall (λ s, k ≠ ind_head_module_name_of Example.base_task s ∧
                    k ≠ pred_transform_module_name_of Example.base_task s ∧
                    k ≠ pred_head_module_name_of Example.base_task s)
         (normal_names ["rare"]) →
       shared_pool !! k
       = ({[ "B" := 0%nat; "H" := 1%nat ]} : gmap string loc) !! k) ∧
    (Forall (λ s, "H" ≠ ind_head_module_name_of Example.base_task s ∧
                  "H" ≠ pred_transform_module_name_of Example.base_task s ∧
                  "H" ≠ pred_head_module_name_of Example.base_task s)
       (normal_names ["rare"]) →
     shared_pool !! "H" = None) ∧
    (∀ r, r ≠ module_pool Example.base_task →
          (r < length (pool_objs Example.h))%nat →
          pool_objs h' !! r = pool_objs Example.h !! r) ∧
    (∀ r m, module_objs Example.h !! r = Some m →
            module_objs h' !! r = Some m).
Proof.
  apply (shared_pool_changes_only_slice_names Example.operation_name
           Example.h Example.base_task 0%nat ["rare"]
           (mkOperation "H" "H" [OpOutput "B" 0])
           {[ "B" := 0%nat; "H" := 1%nat ]} 1%nat (Linear 8 3) 8%nat 3%nat);
    first [reflexivity | by repeat constructor].
Defined.

Lemma convert_to_slice_tasks_twice_fails_witness :
  ∃ tasks h',
    convert_to_slice_tasks Example.operation_name Example.base_task 0%nat
      Example.h
    = (Ok tasks, h') ∧
    (convert_to_slice_tasks Example.operation_name Example.base_task 0%nat
       h').1
    = Raise KeyError.
Proof.
  apply (convert_to_slice_tasks_twice_fails Example.operation_name
           Example.h Example.base_task 0%nat ["rare"]
           (mkOperation "H" "H" [OpOutput "B" 0])
           {[ "B" := 0%nat; "H" := 1%nat ]} 1%nat (Linear 8 3) 8%nat 3%nat);
    first [reflexivity | by repeat constructor].
Defined.

Lemma every_slice_task_has_labels_witness :
  ∃ h1 tasks h2 Y',
    add_slice_labels Example.convert_labels 0%nat Example.base_task
      Example.slice_labels 0%nat Example.h = (Ok tt, h1) ∧
    convert_to_slice_tasks Example.operation_name Example.base_task 0%nat
      h1
    = (Ok tasks, h2) ∧
    length tasks = (2 * length (normal_names ["rare"]) + 1)%nat ∧
    Y_dicts h2 !! 0%nat = Some Y' ∧
    Forall (λ t, is_Some (Y' !! name t)) tasks.
Proof.
  apply (every_slice_task_has_labels Example.convert_labels
           Example.operation_name Example.h 0%nat Example.base_task
           Example.slice_labels 0%nat ["rare"] {[ "T" := [1; 2; 1] ]}
           [1; 2; 1] (mkOperation "H" "H" [OpOutput "B" 0])
           {[ "B" := 0%nat; "H" := 1%nat ]} 1%nat (Linear 8 3) 8%nat 3%nat);
    first [reflexivity | by repeat constructor].
Defined.
